(** * MediaWarp: the interception pipeline, embedded and verified

    A shallow embedding of the Go sources of MediaWarp (the cache middleware,
    the Alist client, the STRM resolvers and the Emby / Jellyfin / FNTV
    response rewriters), with the properties of its specification stated and
    settled against the code.

    Conventions.  A Go [string] and a Go [[]byte] are sequences of bytes and
    are both modelled by [string] (a list of 8-bit characters).  A Go map is a
    [gmap].  Effects are made explicit: a cache is threaded through the
    functions that use it, the clock is an argument, and what an upstream
    server answers is an argument of the handler that asks. *)

From Stdlib Require Import ZArith Ascii String List Permutation Bool Lia.
From stdpp Require Import base option list sorting gmap strings fin_maps.

#[global] Set Warnings "-register-all".

(** ** Byte strings, as the Go standard library handles them *)

Module GoString.

(** [strings.Contains(s, string(c))] for a one-byte needle. *)
Fixpoint contains_byte (c : ascii) (s : string) : bool :=
  match s with
  | EmptyString => false
  | String a s' => if Ascii.eqb a c then true else contains_byte c s'
  end.

(** [strings.Cut(s, string(c))]: the text before the first [c], the text
    after it, and whether [c] was found. *)
Fixpoint Cut (c : ascii) (s : string) : string * string * bool :=
  match s with
  | EmptyString => (EmptyString, EmptyString, false)
  | String a s' =>
      if Ascii.eqb a c then (EmptyString, s', true)
      else let '(b, r, f) := Cut c s' in (String a b, r, f)
  end.

(** The pieces a loop [for s != "" { piece, s, _ = strings.Cut(s, c) }]
    visits, in order. *)
Fixpoint pieces_aux (c : ascii) (cur : string) (s : string) : list string :=
  match s with
  | EmptyString => match cur with EmptyString => [] | _ => [cur] end
  | String a s' =>
      if Ascii.eqb a c then cur :: pieces_aux c EmptyString s'
      else pieces_aux c (cur +:+ String a EmptyString) s'
  end.

Definition pieces (c : ascii) (s : string) : list string :=
  pieces_aux c EmptyString s.

(** [len(s)]. *)
Definition len (s : string) : Z := Z.of_nat (String.length s).

(** [strings.HasSuffix]. *)
Definition HasSuffix (s suffix : string) : bool :=
  let n := String.length s in
  let k := String.length suffix in
  if (k <=? n)%nat then String.eqb (substring (n - k) k s) suffix else false.

(** [strings.HasPrefix]. *)
Definition HasPrefix (s p : string) : bool := String.prefix p s.

(** [sort.Strings] and [slices.Sort]: the rearrangement of the slice sorted
    by [String.le], the order of the bytes, which is how Go compares strings. *)
Definition sort_Strings (l : list string) : list string := merge_sort String.le l.

End GoString.

(** ** net/url: query strings *)

Module URL.
Import GoString.

Definition byte_in (lo hi : ascii) (c : ascii) : bool :=
  (N_of_ascii lo <=? N_of_ascii c)%N && (N_of_ascii c <=? N_of_ascii hi)%N.

Definition is_alnum (c : ascii) : bool :=
  byte_in "a" "z" c || byte_in "A" "Z" c || byte_in "0" "9" c.

Definition ishex (c : ascii) : bool :=
  byte_in "0" "9" c || byte_in "a" "f" c || byte_in "A" "F" c.

Definition unhex (c : ascii) : N :=
  if byte_in "0" "9" c then N_of_ascii c - N_of_ascii "0"
  else if byte_in "a" "f" c then N_of_ascii c - N_of_ascii "a" + 10
  else if byte_in "A" "F" c then N_of_ascii c - N_of_ascii "A" + 10
  else 0.

Definition upperhex (n : N) : ascii :=
  if (n <? 10)%N then ascii_of_N (N_of_ascii "0" + n)
  else ascii_of_N (N_of_ascii "A" + (n - 10)).

(** [shouldEscape(c, encodeQueryComponent)]. *)
Definition shouldEscape (c : ascii) : bool :=
  if is_alnum c then false
  else if Ascii.eqb c "-" || Ascii.eqb c "_" || Ascii.eqb c "." || Ascii.eqb c "~"
  then false
  else true.

(** [url.QueryEscape]. *)
Fixpoint QueryEscape (s : string) : string :=
  match s with
  | EmptyString => EmptyString
  | String c s' =>
      if Ascii.eqb c " " then String "+" (QueryEscape s')
      else if shouldEscape c then
        String "%" (String (upperhex (N_of_ascii c / 16))
                   (String (upperhex (N_of_ascii c mod 16)) (QueryEscape s')))
      else String c (QueryEscape s')
  end.

(** [url.QueryUnescape]; [None] is the [EscapeError]. *)
Fixpoint QueryUnescape (s : string) : option string :=
  match s with
  | EmptyString => Some EmptyString
  | String c s' =>
      if Ascii.eqb c "%" then
        match s' with
        | String h1 (String h2 s'') =>
            if ishex h1 && ishex h2 then
              String (ascii_of_N (unhex h1 * 16 + unhex h2)) <$> QueryUnescape s''
            else None
        | _ => None
        end
      else if Ascii.eqb c "+" then String " " <$> QueryUnescape s'
      else String c <$> QueryUnescape s'
  end.

(** [url.Values]. *)
Abbreviation Values := (gmap string (list string)).

(** One turn of the loop of [parseQuery]: the key and value a piece of the
    query contributes, or [None] when the piece is skipped. *)
Definition parse_piece (piece : string) : option (string * string) :=
  if contains_byte ";" piece then None
  else if String.eqb piece "" then None
  else
    let '(key, value, _) := Cut "=" piece in
    match QueryUnescape key with
    | None => None
    | Some key =>
        match QueryUnescape value with
        | None => None
        | Some value => Some (key, value)
        end
    end.

(** [m[key] = append(m[key], value)]. *)
Definition add_value (m : Values) (kv : string * string) : Values :=
  <[kv.1 := default [] (m !! kv.1) ++ [kv.2]]> m.

(** The parameters of a raw query, decoded, in the order they are written. *)
Definition params (query : string) : list (string * string) :=
  omap parse_piece (pieces "&" query).

(** [URL.Query()]: [ParseQuery] with its error dropped. *)
Definition Query (query : string) : Values :=
  foldl add_value ∅ (params query).

(** [Values.Del]. *)
Definition Del (key : string) (v : Values) : Values := delete key v.

(** The body of [Values.Encode] for one key: every value is written as
    [key=value], with [&] before it unless the buffer is still empty. *)
Definition encode_key (keyEscaped : string) (buf : string) (vs : list string) : string :=
  foldl (fun buf v =>
           (if (0 <? String.length buf)%nat then buf +:+ "&" else buf)
             +:+ keyEscaped +:+ "=" +:+ QueryEscape v) buf vs.

(** [Values.Encode]. *)
Definition Encode (v : Values) : string :=
  let keys := sort_Strings (map_to_list v).*1 in
  foldl (fun buf k => encode_key (QueryEscape k) buf (default [] (v !! k))) "" keys.

End URL.

(** ** The cache key of the cache middleware *)

Module CacheKey.
Import GoString URL.

(** Query parameters left out of the key. *)
Definition CacheKeyIgnoreQuery : list string :=
  [ "api_key"; "starttimeticks"; "x-playback-session-id"; "playsessionid"; "tag" ].

(** [getCacheKey], on the path and the raw query of the request. *)
Definition getCacheKey (path rawQuery : string) : string :=
  let query := Query rawQuery in
  let query := foldl (fun q key => Del key q) query CacheKeyIgnoreQuery in
  let query := sort_Strings <$> query in
  path +:+ Encode query.

(** A parameter takes part in the key when its name is not ignored. *)
Definition kept (kv : string * string) : bool :=
  negb (existsb (String.eqb kv.1) CacheKeyIgnoreQuery).

(** The values a list of parameters gives to one key, in order. *)
Definition values_of (k : string) (ps : list (string * string)) : list string :=
  (filter (λ kv, kv.1 = k) ps).*2.

(** The map [getCacheKey] encodes, key by key. *)
Definition key_map (ps : list (string * string)) : Values :=
  sort_Strings <$> foldl (λ q key, Del key q) (foldl add_value ∅ ps) CacheKeyIgnoreQuery.

End CacheKey.

(** ** Go values shared by the handlers *)

Module Go.

(** A Go [error]: the place that raised it and its message. *)
Record error := Errorf { err_site : string; err_msg : string }.

(** A Go result [(T, error)]. *)
Inductive result (A : Type) : Type :=
| Ok (a : A)
| Err (e : error).
Arguments Ok {A} a.
Arguments Err {A} e.

#[global] Instance error_eq_dec : EqDecision error.
Proof. solve_decision. Defined.

#[global] Instance result_eq_dec `{EqDecision A} : EqDecision (result A).
Proof. solve_decision. Defined.

Definition is_ok {A} (r : result A) : bool :=
  match r with Ok _ => true | Err _ => false end.

(** What a call comes to: it returns, or the goroutine panics (a nil
    pointer dereference, an index out of range, a failed type assertion). *)
Inductive outcome (A : Type) : Type :=
| Returns (a : A)
| Panics (why : string).
Arguments Returns {A} a.
Arguments Panics {A} why.

#[global] Instance outcome_ret : MRet outcome := λ A a, Returns a.
#[global] Instance outcome_bind : MBind outcome :=
  λ A B f m, match m with Returns a => f a | Panics why => Panics why end.

(** [*p] for a pointer field that may be nil. *)
Definition deref {A} (p : option A) : outcome A :=
  match p with
  | Some a => Returns a
  | None => Panics "invalid memory address or nil pointer dereference"
  end.

(** [s[0]]. *)
Definition index0 {A} (s : list A) : outcome A :=
  match s with
  | a :: _ => Returns a
  | [] => Panics "index out of range [0] with length 0"
  end.

(** A state monad, for the code that threads a cache or a client. *)
Definition State (S A : Type) : Type := S → A * S.
#[global] Instance State_ret S : MRet (State S) := λ A a s, (a, s).
#[global] Instance State_bind S : MBind (State S) :=
  λ A B f m s, let '(a, s') := m s in f a s'.

(** [strconv.Itoa] on an index. *)
Definition digit (n : nat) : ascii := ascii_of_nat (48 + n).

Fixpoint Itoa_aux (fuel n : nat) (acc : string) : string :=
  match fuel with
  | O => acc
  | S fuel' =>
      let acc' := String (digit (n mod 10)) acc in
      if (n <? 10)%nat then acc' else Itoa_aux fuel' (n / 10) acc'
  end.

Definition Itoa (n : nat) : string := Itoa_aux (S n) n "".

End Go.

(** ** net/http: methods, status codes, headers *)

Module HTTP.

Definition MethodGet : string := "GET".
Definition MethodHead : string := "HEAD".
Definition StatusOK : Z := 200.
Definition StatusMultipleChoices : Z := 300.
Definition StatusFound : Z := 302.

Abbreviation Header := (gmap string (list string)).

Definition is_lower (c : ascii) : bool := URL.byte_in "a" "z" c.
Definition is_upper (c : ascii) : bool := URL.byte_in "A" "Z" c.
Definition to_upper (c : ascii) : ascii :=
  if is_lower c then ascii_of_N (N_of_ascii c - 32) else c.
Definition to_lower (c : ascii) : ascii :=
  if is_upper c then ascii_of_N (N_of_ascii c + 32) else c.

(** [validHeaderFieldByte]: the bytes of an HTTP token. *)
Definition validHeaderFieldByte (c : ascii) : bool :=
  URL.is_alnum c || GoString.contains_byte c "!#$%&'*+-.^_`|~".

Fixpoint all_bytes (p : ascii → bool) (s : string) : bool :=
  match s with
  | EmptyString => true
  | String c s' => p c && all_bytes p s'
  end.

Fixpoint canon (upper : bool) (s : string) : string :=
  match s with
  | EmptyString => EmptyString
  | String c s' =>
      let c' := if upper then to_upper c else to_lower c in
      String c' (canon (Ascii.eqb c' "-") s')
  end.

(** [textproto.CanonicalMIMEHeaderKey]. *)
Definition CanonicalMIMEHeaderKey (s : string) : string :=
  if all_bytes validHeaderFieldByte s then canon true s else s.

(** [Header.Get]: the first value of the key, or the empty string. *)
Definition Header_Get (h : Header) (key : string) : string :=
  match h !! CanonicalMIMEHeaderKey key with
  | Some (v :: _) => v
  | _ => ""
  end.

(** [Header.Set]. *)
Definition Header_Set (h : Header) (key value : string) : Header :=
  <[CanonicalMIMEHeaderKey key := [value]]> h.

(** [strings.ToLower] on ASCII text. *)
Fixpoint ToLower (s : string) : string :=
  match s with
  | EmptyString => EmptyString
  | String c s' => String (to_lower c) (ToLower s')
  end.

End HTTP.

(** ** The bounded cache the middleware and the clients share *)

Module Cache.

(** The two operations the code uses of [*bigcache.BigCache].  [Get]
    answers [None] for [ErrEntryNotFound]; [Set] gives the cache it leaves
    and whether it returned an error. *)
Class BigCache (C : Type) := {
  cache_Get : C → string → option string;
  cache_Set : C → string → string → C * bool;
}.

(** The calls made on a cache, in order. *)
Inductive CacheOp :=
| OpGet (key : string)
| OpSet (key : string) (entry : string).

#[global] Instance CacheOp_eq_dec : EqDecision CacheOp.
Proof. solve_decision. Defined.

(** A cache pool together with the record of the calls made on it. *)
Record Pool (C : Type) := mkPool { pool : C; ops : list CacheOp }.
Arguments mkPool {C} pool ops.
Arguments pool {C} p.
Arguments ops {C} p.

Section ops.
Context {C : Type} `{!BigCache C}.

Definition Get (key : string) : Go.State (Pool C) (option string) :=
  λ p, (cache_Get (pool p) key, mkPool (pool p) (ops p ++ [OpGet key])).

(** Returns [true] when [Set] returned an error. *)
Definition Set_ (key entry : string) : Go.State (Pool C) bool :=
  λ p, let '(c, failed) := cache_Set (pool p) key entry in
       (failed, mkPool c (ops p ++ [OpSet key entry])).
End ops.

(** A cache that keeps what it is given, and refuses entries longer than
    its shard. *)
Record MapCache := mkMapCache { store : gmap string string; shard_size : Z }.

#[global] Instance MapCache_BigCache : BigCache MapCache := {
  cache_Get c key := store c !! key;
  cache_Set c key entry :=
    if (GoString.len entry <=? shard_size c)%Z
    then (mkMapCache (<[key := entry]> (store c)) (shard_size c), false)
    else (c, true);
}.

End Cache.

(** ** The cache middleware *)

Module Middleware.
Import GoString Go HTTP Cache.

Record Request := mkRequest { Method : string; Path : string; RawQuery : string }.

(** [gin.ResponseWriter], as far as the middleware sees it: the status,
    the header map and the bytes written. *)
Record ResponseWriter := mkWriter { Status : Z; Headers : Header; Out : string }.

(** What a handler does to the writer it is given. *)
Inductive WriterAction :=
| WriteHeader (code : Z)
| SetHeader (key value : string)
| Write (data : string).

Definition act (w : ResponseWriter) (a : WriterAction) : ResponseWriter :=
  match a with
  | WriteHeader code => mkWriter code (Headers w) (Out w)
  | SetHeader k v => mkWriter (Status w) (Header_Set (Headers w) k v) (Out w)
  | Write data => mkWriter (Status w) (Headers w) (Out w +:+ data)
  end.

(** [WriterWarp]: the writer it wraps and a copy of what went through
    [Write]. *)
Record WriterWarp := mkWarp { inner : ResponseWriter; Body : string }.

Definition act_warp (w : WriterWarp) (a : WriterAction) : WriterWarp :=
  match a with
  | Write data => mkWarp (act (inner w) a) (Body w +:+ data)
  | _ => mkWarp (act (inner w) a) (Body w)
  end.

(** The rest of the handler chain ([ctx.Next()]). *)
Definition Chain := Request → list WriterAction.

Record Context := mkContext { request : Request; Writer : ResponseWriter }.

Record CacheData := mkCacheData {
  StatusCode : Z;
  CHeader : gmap string string;
  CBody : string;
}.

(** [CacheData.WriteResponse]. *)
Definition WriteResponse (c : CacheData) (w : ResponseWriter) : ResponseWriter :=
  let w := act w (WriteHeader (StatusCode c)) in
  let w := map_fold (λ key value w, act w (SetHeader key value)) w (CHeader c) in
  act w (Write (CBody c)).

Definition maxCacheSize : Z := 256 * 1024.

(** The headers kept in a cache entry. *)
Definition whitelist : list string :=
  [ "Content-Type"; "Content-Length"; "Cache-Control"; "ETag"; "Content-Disposition" ].

Definition keep_header (h : Header) (header : gmap string string) (key : string)
  : gmap string string :=
  let v := Header_Get h key in
  if String.eqb v "" then header else <[key := v]> header.

(** The entry built from the recorded response. *)
Definition entry_of (w : WriterWarp) : CacheData :=
  mkCacheData (Status (inner w))
              (foldl (keep_header (Headers (inner w))) ∅ whitelist)
              (Body w).

(** The writer is wrapped in a [WriterWarp] and the rest of the chain runs
    on it. *)
Definition recording (next : Chain) (ctx : Context) : WriterWarp :=
  foldl act_warp (mkWarp (Writer ctx) "") (next (request ctx)).

(** Whether a recorded response is offered to the cache. *)
Definition cacheable (w : WriterWarp) : Prop :=
  (200 ≤ Status (inner w) < 300)%Z ∧ (len (Body w) ≤ 262144)%Z.

#[global] Instance cacheable_dec w : Decision (cacheable w).
Proof. unfold cacheable. apply _. Defined.

(** What the middleware leaves: the writer the client sees, whether the
    chain was cut short ([ctx.Abort]), and the recording writer when one
    was installed. *)
Record Served := mkServed {
  response : ResponseWriter;
  aborted : bool;
  captured : option WriterWarp;
}.

Section WithCache.
Context {C : Type} `{!BigCache C}.
(** [json.Marshal] of a [CacheData] (an int, a map of strings and a byte
    slice: it cannot fail) and [json.Unmarshal] into one. *)
Variable Json : CacheData → string.
Variable ParseCacheData : string → option CacheData.

(** The part of [getCacheBaseFunc] after a miss. *)
Definition record_response (cacheKey : string) (next : Chain) (ctx : Context)
  : State (Pool C) Served :=
  let writer := recording next ctx in
  let code := Status (inner writer) in
  let served := mkServed (inner writer) false (Some writer) in
  if (StatusOK <=? code)%Z && (code <? StatusMultipleChoices)%Z then
    let bodyBytes := Body writer in
    if (maxCacheSize <? len bodyBytes)%Z then mret served
    else
      _ ← Set_ cacheKey (Json (entry_of writer));
      mret served
  else mret served.

Definition getCacheBaseFunc (next : Chain) (ctx : Context) : State (Pool C) Served :=
  let cacheKey := CacheKey.getCacheKey (Path (request ctx)) (RawQuery (request ctx)) in
  cacheByte ← Get cacheKey;
  match cacheByte with
  | Some cacheByte =>
      match ParseCacheData cacheByte with
      | Some cacheData =>
          mret (mkServed (WriteResponse cacheData (Writer ctx)) true None)
      | None => record_response cacheKey next ctx
      end
  | None => record_response cacheKey next ctx
  end.

(** A request the middleware leaves to the rest of the chain. *)
Definition pass (next : Chain) (ctx : Context) : State (Pool C) Served :=
  mret (mkServed (foldl act (Writer ctx) (next (request ctx))) false None).

Definition ImageCache (reg : string → bool) (next : Chain) (ctx : Context)
  : State (Pool C) Served :=
  if negb (String.eqb (Method (request ctx)) MethodGet) || negb (reg (Path (request ctx)))
  then pass next ctx
  else getCacheBaseFunc next ctx.

Definition SubtitleCache (reg : string → bool) (next : Chain) (ctx : Context)
  : State (Pool C) Served :=
  if negb (String.eqb (Method (request ctx)) MethodGet) || negb (reg (Path (request ctx)))
  then pass next ctx
  else getCacheBaseFunc next ctx.

End WithCache.

End Middleware.

(** ** time: instants and durations *)

Module time.

(** A [time.Duration]: nanoseconds. *)
Definition Nanosecond : Z := 1.
Definition Second : Z := 1000000000 * Nanosecond.
Definition Minute : Z := 60 * Second.
Definition Hour : Z := 60 * Minute.

Definition minDuration : Z := - 2 ^ 63.
Definition maxDuration : Z := 2 ^ 63 - 1.

(** A [time.Time] read on the wall clock: nanoseconds since January 1 of
    year 1, 00:00:00 UTC, so that the zero [Time] is [0]. *)
Definition Time := Z.

Definition IsZero (t : Time) : bool := (t =? 0)%Z.
Definition Before (t u : Time) : bool := (t <? u)%Z.
Definition Add (t : Time) (d : Z) : Time := (t + d)%Z.

(** Seconds from year 1 to 1970. *)
Definition unixToInternal : Z := 62135596800.

(** [time.Unix(sec, 0)]. *)
Definition Unix (sec : Z) : Time := ((sec + unixToInternal) * Second)%Z.

(** [t.Sub(u)]: the difference, held to the range of a [Duration]. *)
Definition Sub (t u : Time) : Z :=
  let d := (t - u)%Z in
  if (d <? minDuration)%Z then minDuration
  else if (maxDuration <? d)%Z then maxDuration
  else d.

(** [time.Since(t)], read at the instant [now]. *)
Definition Since (now t : Time) : Z := Sub now t.

(** [int64(d.Seconds())]: [Seconds] is the float [sec + nsec/1e9] for
    [sec = d / Second] and [nsec = d % Second] (both truncated towards
    zero), and the conversion drops its fraction.  The sum is taken here
    over the rationals; it is the float's value whenever [nsec = 0]. *)
Definition whole_Seconds (d : Z) : Z := Z.quot d Second.

End time.

(** ** The Alist client *)

Module Alist.
Import Go Cache.

Record alistToken := mkToken { value : string; expireAt : time.Time }.

(** The token is usable: it is set, and has no expiry or has not reached it. *)
Definition token_valid (tok : alistToken) (now : time.Time) : bool :=
  negb (String.eqb (value tok) "") &&
    (time.IsZero (expireAt tok) || time.Before now (expireAt tok)).

(** The lifetime [getToken] gives a fresh token: two days less five minutes. *)
Definition tokenDuration : Z := 2 * 24 * time.Hour - 5 * time.Minute.

(** [AlistResponse[T]]. *)
Record AlistResponse (T : Type) := mkResponse { Code : Z; Message : string; Data : T }.
Arguments mkResponse {T} Code Message Data.
Arguments Code {T} a.
Arguments Message {T} a.
Arguments Data {T} a.

Record AuthLoginData := mkLogin { Token : string }.

(** The [Request] interface, and the call it stands for. *)
Record Request := mkRequest { GetCacheKey : string; NeedAuth : bool; call : string }.

(** What [client.client.Do] and [io.ReadAll] come to. *)
Inductive Exchange :=
| TransportError (e : error)
| Response (StatusCode : Z) (body : result string).

(** [json.Unmarshal] into an [AlistResponse[T]]. *)
Class Unmarshal (T : Type) := unmarshal : string → option (AlistResponse T).

Section WithCache.
Context {C : Type} `{!BigCache C}.

(** The parts of an [AlistClient] that change or that [doRequest] reads,
    the wall clock, and the record of the calls made on the cache. *)
Record World := mkWorld {
  token : alistToken;
  cache : option C;
  now : time.Time;
  calls : list CacheOp;
}.

(** The server: what a call, sent with this [Authorization] at this
    instant, is answered, and the instant the answer is read. *)
Variable Do : Request → option string → time.Time → Exchange * time.Time.
Context `{!Unmarshal AuthLoginData}.
(** The login request.  [AuthLoginRequest] is declared outside the files
    at hand; only its cache key is read here, and login is the one call
    sent without a token. *)
Variable loginCacheKey : string.

Definition AuthLoginRequest : Request := mkRequest loginCacheKey false "/api/auth/login".

Definition cache_enabled (cacheKey : string) (w : World) : bool :=
  negb (String.eqb cacheKey "") && bool_decide (is_Some (cache w)).

Definition world_Get (cacheKey : string) : State World (option string) :=
  λ w, match cache w with
       | Some c => (cache_Get c cacheKey,
                    mkWorld (token w) (cache w) (now w) (calls w ++ [OpGet cacheKey]))
       | None => (None, w)
       end.

Definition world_Set (cacheKey data : string) : State World bool :=
  λ w, match cache w with
       | Some c => let '(c', failed) := cache_Set c cacheKey data in
                   (failed, mkWorld (token w) (Some c') (now w)
                                    (calls w ++ [OpSet cacheKey data]))
       | None => (false, w)
       end.

Definition send (r : Request) (auth : option string) : State World Exchange :=
  λ w, let '(ex, t) := Do r auth (now w) in
       (ex, mkWorld (token w) (cache w) t (calls w)).

(** [doRequest] from [client.client.Do] on: the answer is read and
    decoded, its [code] is checked, and the body is cached. *)
Definition settle {T} `{!Unmarshal T} (cacheKey : string) (ex : Exchange) : State World (result T) :=
  match ex with
  | TransportError e => mret (Err (Errorf "doRequest" "请求失败"))
  | Response status (Err e) => mret (Err (Errorf "doRequest" "读取响应体失败"))
  | Response status (Ok data) =>
      match unmarshal (T:=T) data with
      | None => mret (Err (Errorf "doRequest" "解析响应体失败"))
      | Some resp =>
          if negb (Code resp =? HTTP.StatusOK)%Z
          then mret (Err (Errorf "doRequest" "请求失败，HTTP 状态码"))
          else
            w ← (λ w, (w, w));
            if cache_enabled cacheKey w then
              failed ← world_Set cacheKey data;
              if failed : bool then mret (Err (Errorf "doRequest" "缓存响应体失败"))
              else mret (Ok (Data resp))
            else mret (Ok (Data resp))
      end
  end.

(** The cache lookup [doRequest] starts with. *)
Definition lookup {T} `{!Unmarshal T} (cacheKey : string) : State World (option (AlistResponse T)) :=
  w ← (λ w, (w, w));
  if cache_enabled cacheKey w then
    data ← world_Get cacheKey;
    mret (data ≫= unmarshal (T:=T))
  else mret None.

(** The request is sent and its answer settled. *)
Definition roundtrip {T} `{!Unmarshal T} (r : Request) (auth : option string) : State World (result T) :=
  ex ← send r auth;
  settle (GetCacheKey r) ex.

(** [doRequest], over the way it gets its token. *)
Definition doRequest_with {T} `{!Unmarshal T} (getToken : State World (result string)) (r : Request)
  : State World (result T) :=
  let cacheKey := GetCacheKey r in
  hit ← lookup cacheKey;
  match hit with
  | Some resp => mret (Ok (Data resp))
  | None =>
      if NeedAuth r then
        token ← getToken;
        match token with
        | Err e => mret (Err e)
        | Ok token => roundtrip r (Some token)
        end
      else roundtrip r None
  end.

(** [authLogin]. *)
Definition authLogin : State World (result AuthLoginData) :=
  data ← doRequest_with (mret (Err (Errorf "getToken" "login needs no token")))
                        AuthLoginRequest;
  match data with
  | Err e => mret (Err (Errorf "authLogin" "登录失败"))
  | Ok data => mret (Ok data)
  end.

(** The write [getToken] ends with: the fresh token and its expiry. *)
Definition install (fresh : string) : State World unit :=
  λ w, (tt, mkWorld (mkToken fresh (time.Add (now w) tokenDuration))
                    (cache w) (now w) (calls w)).

Definition refresh : State World (result string) :=
  loginData ← authLogin;
  match loginData with
  | Err e => mret (Err e)
  | Ok loginData => _ ← install (Token loginData); mret (Ok (Token loginData))
  end.

(** [getToken], run by one goroutine on its own. *)
Definition getToken : State World (result string) :=
  λ w, if token_valid (token w) (now w) then (Ok (value (token w)), w)
       else refresh w.

Definition doRequest {T} `{!Unmarshal T} (r : Request) : State World (result T) :=
  doRequest_with getToken r.

End WithCache.

Arguments World C : clear implicits.

(** *** What the cache may come to hold *)

(** The body is an answer of type [T] whose [code] is 200. *)
Definition code_200 (T : Type) `{!Unmarshal T} (body : string) : Prop :=
  ∃ resp : AlistResponse T, unmarshal (T:=T) body = Some resp ∧ Code resp = 200%Z.

(** A call on the cache that stores nothing but such answers (of type
    [T], or answers to a login). *)
Definition sound_op (T : Type) `{!Unmarshal T, !Unmarshal AuthLoginData} (op : CacheOp) : Prop :=
  match op with
  | OpGet _ => True
  | OpSet _ body => code_200 T body ∨ code_200 AuthLoginData body
  end.

(** [w'] comes from [w] by such calls, the token and clock aside. *)
Definition grows {C} (T : Type) `{!Unmarshal T, !Unmarshal AuthLoginData} (w w' : World C) : Prop :=
  ∃ l, calls w' = calls w ++ l ∧ Forall (sound_op T) l.

(** An answer [doRequest] returns was read from the cache, or came with
    [code] 200. *)
Definition vouched {C} `{!BigCache C} (T : Type) `{!Unmarshal T} (r : Request) (w : World C)
  (d : T) : Prop :=
  ∃ resp : AlistResponse T, Data resp = d ∧
    ((∃ c data, cache w = Some c ∧ cache_Get c (GetCacheKey r) = Some data ∧
                unmarshal (T:=T) data = Some resp)
     ∨ (∃ data, unmarshal (T:=T) data = Some resp ∧ Code resp = 200%Z)).

(** [w'] is [w] some time later, with the same token. *)
Definition later {C} (w w' : World C) : Prop := token w' = token w ∧ (now w ≤ now w')%Z.

(** *** [getToken] run by several goroutines

    Each goroutine is at one point of [getToken]; a step is taken by one
    of them, or by the clock.  [readers] and [writer] are the state of
    [token.mutex]. *)

Inductive pc :=
| Entering                      (* before [RLock] *)
| Checking                      (* holds the read lock, before the test *)
| LoggingIn                     (* holds the read lock, inside [authLogin] *)
| Upgrading (fresh : string)    (* read lock released, before [Lock] *)
| Installing (fresh : string)   (* holds the write lock *)
| Returned (r : result string).

#[global] Instance pc_eq_dec : EqDecision pc.
Proof. solve_decision. Defined.

Record Shared := mkShared {
  tok : alistToken;
  readers : nat;
  writer : bool;
  clock : time.Time;
}.

Record Config := mkConfig { shared : Shared; goroutines : list pc }.

Definition at_pc (cfg : Config) (i : nat) (p : pc) : Prop := goroutines cfg !! i = Some p.

Definition move (cfg : Config) (i : nat) (p : pc) (s : Shared) : Config :=
  mkConfig s (<[i := p]> (goroutines cfg)).

Inductive step : Config → Config → Prop :=
| step_RLock cfg i :
    at_pc cfg i Entering → writer (shared cfg) = false →
    step cfg (move cfg i Checking
                (mkShared (tok (shared cfg)) (S (readers (shared cfg))) false
                          (clock (shared cfg))))
| step_hit cfg i :
    at_pc cfg i Checking →
    token_valid (tok (shared cfg)) (clock (shared cfg)) = true →
    step cfg (move cfg i (Returned (Ok (value (tok (shared cfg)))))
                (mkShared (tok (shared cfg)) (pred (readers (shared cfg)))
                          (writer (shared cfg)) (clock (shared cfg))))
| step_miss cfg i :
    at_pc cfg i Checking →
    token_valid (tok (shared cfg)) (clock (shared cfg)) = false →
    step cfg (move cfg i LoggingIn (shared cfg))
| step_login cfg i (loginData : result AuthLoginData) :
    at_pc cfg i LoggingIn →
    step cfg (move cfg i
                (match loginData with
                 | Ok d => Upgrading (Token d)
                 | Err e => Returned (Err e)
                 end)
                (mkShared (tok (shared cfg)) (pred (readers (shared cfg)))
                          (writer (shared cfg)) (clock (shared cfg))))
| step_Lock cfg i fresh :
    at_pc cfg i (Upgrading fresh) →
    writer (shared cfg) = false → readers (shared cfg) = 0 →
    step cfg (move cfg i (Installing fresh)
                (mkShared (tok (shared cfg)) 0 true (clock (shared cfg))))
| step_install cfg i fresh :
    at_pc cfg i (Installing fresh) →
    step cfg (move cfg i (Returned (Ok fresh))
                (mkShared (mkToken fresh (time.Add (clock (shared cfg)) tokenDuration))
                          (readers (shared cfg)) false (clock (shared cfg))))
| step_tick cfg d :
    (0 ≤ d)%Z →
    step cfg (mkConfig (mkShared (tok (shared cfg)) (readers (shared cfg))
                                 (writer (shared cfg)) (clock (shared cfg) + d)%Z)
                       (goroutines cfg)).

(** [n] goroutines about to call [getToken] on a client. *)
Definition initial (t : alistToken) (start : time.Time) (n : nat) : Config :=
  mkConfig (mkShared t 0 false start) (replicate n Entering).

Definition reachable (t : alistToken) (start : time.Time) (n : nat) : Config → Prop :=
  rtc step (initial t start n).

(** How many goroutines are at a point of a given kind. *)
Fixpoint count (f : pc → bool) (l : list pc) : nat :=
  match l with
  | [] => 0
  | p :: l => (if f p then 1 else 0) + count f l
  end.

Definition logging_in (p : pc) : bool := match p with LoggingIn => true | _ => false end.
Definition reading (p : pc) : bool :=
  match p with Checking | LoggingIn => true | _ => false end.
Definition installing (p : pc) : bool := match p with Installing _ => true | _ => false end.

(** The goroutines inside [authLogin]: the refreshes in flight. *)
Definition in_flight (cfg : Config) : nat := count logging_in (goroutines cfg).

(** The lock counts what the goroutines hold. *)
Record lock_inv (cfg : Config) : Prop := {
  inv_readers : readers (shared cfg) = count reading (goroutines cfg);
  inv_writer : count installing (goroutines cfg) = if writer (shared cfg) then 1 else 0;
  inv_excl : writer (shared cfg) = true → readers (shared cfg) = 0;
}.

(** *** Two goroutines on a client without a token *)

Definition no_token : alistToken := mkToken "" 0%Z.

Definition login_of (fresh : string) : result AuthLoginData := Ok (mkLogin fresh).

(** Both goroutines have taken the read lock, found no token, and are
    inside [authLogin]. *)
Definition both_logging_in : Config :=
  mkConfig (mkShared no_token 2 false (time.Unix 0)) [LoggingIn; LoggingIn].

(** The first has installed its token ["A"]; the second, back from its own
    login with ["B"], holds the write lock. *)
Definition second_installing : Config :=
  mkConfig (mkShared (mkToken "A" (time.Add (time.Unix 0) tokenDuration)) 0 true (time.Unix 0))
           [Returned (Ok "A"); Installing "B"].

Ltac take s := eapply rtc_l; [s|]; cbn.

End Alist.

(** ** JSON texts

    A reader of JSON texts (RFC 8259) and the lookups the handlers make in
    one.  The handlers below are stated over any decoder; this one serves to
    run them on concrete bodies. *)

Module JSON.
Import GoString.

Inductive value :=
| Null
| Bool (b : bool)
| Number (literal : string)
| Str (s : string)
| Array (elements : list value)
| Object (members : list (string * value)).

(** A JSON text written with ['] for its quotation marks. *)
Fixpoint quoted (s : string) : string :=
  match s with
  | EmptyString => EmptyString
  | String c s' => String (if Ascii.eqb c "'" then "034"%char else c) (quoted s')
  end.

Definition is_ws (c : ascii) : bool :=
  Ascii.eqb c " " || Ascii.eqb c "009" || Ascii.eqb c "010" || Ascii.eqb c "013".

Fixpoint skip_ws (s : string) : string :=
  match s with
  | String c s' => if is_ws c then skip_ws s' else s
  | EmptyString => s
  end.

Definition is_digit (c : ascii) : bool := URL.byte_in "0" "9" c.

(** The digits [s] starts with, and what follows them. *)
Fixpoint span_digits (s : string) : string * string :=
  match s with
  | String c s' =>
      if is_digit c then let '(d, r) := span_digits s' in (String c d, r)
      else (EmptyString, s)
  | EmptyString => (EmptyString, EmptyString)
  end.

Definition read_int (s : string) : option (string * string) :=
  match s with
  | String c s' =>
      if Ascii.eqb c "0" then Some ("0", s')
      else if is_digit c then let '(d, r) := span_digits s' in Some (String c d, r)
      else None
  | EmptyString => None
  end.

Definition read_frac (s : string) : option (string * string) :=
  match s with
  | String "." s' =>
      match span_digits s' with
      | (EmptyString, _) => None
      | (d, r) => Some (String "." d, r)
      end
  | _ => Some (EmptyString, s)
  end.

Definition read_exp (s : string) : option (string * string) :=
  match s with
  | String c s' =>
      if Ascii.eqb c "e" || Ascii.eqb c "E" then
        let '(sign, s'') :=
          match s' with
          | String "+" t => ("+", t)
          | String "-" t => ("-", t)
          | _ => ("", s')
          end in
        match span_digits s'' with
        | (EmptyString, _) => None
        | (d, r) => Some (String c sign +:+ d, r)
        end
      else Some (EmptyString, s)
  | EmptyString => Some (EmptyString, s)
  end.

Definition read_number (s : string) : option (string * string) :=
  let '(sign, s) := match s with String "-" t => ("-", t) | _ => ("", s) end in
  '(i, s) ← read_int s;
  '(f, s) ← read_frac s;
  '(e, s) ← read_exp s;
  Some (sign +:+ i +:+ f +:+ e, s).

Definition hex4 (a b c d : ascii) : option N :=
  if URL.ishex a && URL.ishex b && URL.ishex c && URL.ishex d
  then Some (((URL.unhex a * 16 + URL.unhex b) * 16 + URL.unhex c) * 16 + URL.unhex d)%N
  else None.

(** The UTF-8 bytes of a code point. *)
Definition utf8 (cp : N) : string :=
  let b n := ascii_of_N n in
  (if cp <? 128 then String (b cp) ""
   else if cp <? 2048 then String (b (192 + cp / 64)) (String (b (128 + cp mod 64)) "")
   else if cp <? 65536 then
     String (b (224 + cp / 4096))
            (String (b (128 + (cp / 64) mod 64)) (String (b (128 + cp mod 64)) ""))
   else
     String (b (240 + cp / 262144))
            (String (b (128 + (cp / 4096) mod 64))
                    (String (b (128 + (cp / 64) mod 64)) (String (b (128 + cp mod 64)) ""))))%N.

Definition replacement : N := 65533.

(** The text of a string literal after its opening quote: the string it
    denotes and what follows the closing quote. *)
Fixpoint read_string (s : string) : option (string * string) :=
  match s with
  | EmptyString => None
  | String "034" r => Some (EmptyString, r)
  | String "\" (String e r) =>
      let simple c := '(t, r') ← read_string r; Some (String c t, r') in
      if Ascii.eqb e "034" then simple "034"%char
      else if Ascii.eqb e "\" then simple "\"%char
      else if Ascii.eqb e "/" then simple "/"%char
      else if Ascii.eqb e "b" then simple "008"%char
      else if Ascii.eqb e "f" then simple "012"%char
      else if Ascii.eqb e "n" then simple "010"%char
      else if Ascii.eqb e "r" then simple "013"%char
      else if Ascii.eqb e "t" then simple "009"%char
      else if Ascii.eqb e "u" then
        match r with
        | String h1 (String h2 (String h3 (String h4 r1))) =>
            cp ← hex4 h1 h2 h3 h4;
            if ((55296 <=? cp) && (cp <? 56320))%N then
              match r1 with
              | String "\" (String "u" (String l1 (String l2 (String l3 (String l4 r2))))) =>
                  match hex4 l1 l2 l3 l4 with
                  | Some lo =>
                      if ((56320 <=? lo) && (lo <? 57344))%N then
                        '(t, r') ← read_string r2;
                        Some (utf8 (65536 + (cp - 55296) * 1024 + (lo - 56320)) +:+ t, r')
                      else '(t, r') ← read_string r1; Some (utf8 replacement +:+ t, r')
                  | None => None
                  end
              | _ => '(t, r') ← read_string r1; Some (utf8 replacement +:+ t, r')
              end
            else if ((56320 <=? cp) && (cp <? 57344))%N then
              '(t, r') ← read_string r1; Some (utf8 replacement +:+ t, r')
            else '(t, r') ← read_string r1; Some (utf8 cp +:+ t, r')
        | _ => None
        end
      else None
  | String c r =>
      if (N_of_ascii c <? 32)%N then None
      else '(t, r') ← read_string r; Some (String c t, r')
  end.

Definition expect (lit : string) (v : value) (s : string) : option (value * string) :=
  if String.prefix lit s
  then Some (v, substring (String.length lit) (String.length s - String.length lit) s)
  else None.

(** A value at the head of [s] (no white space before it), and the rest. *)
Fixpoint read_value (fuel : nat) (s : string) : option (value * string) :=
  match fuel with
  | O => None
  | S fuel =>
      match s with
      | EmptyString => None
      | String c r =>
          if Ascii.eqb c "{" then
            match skip_ws r with
            | String "}" r' => Some (Object [], r')
            | r' => read_members fuel r' []
            end
          else if Ascii.eqb c "[" then
            match skip_ws r with
            | String "]" r' => Some (Array [], r')
            | r' => read_elements fuel r' []
            end
          else if Ascii.eqb c "034" then
            '(t, r') ← read_string r; Some (Str t, r')
          else if Ascii.eqb c "t" then expect "true" (Bool true) s
          else if Ascii.eqb c "f" then expect "false" (Bool false) s
          else if Ascii.eqb c "n" then expect "null" Null s
          else '(n, r') ← read_number s; Some (Number n, r')
      end
  end
with read_elements (fuel : nat) (s : string) (acc : list value) : option (value * string) :=
  match fuel with
  | O => None
  | S fuel =>
      '(v, r) ← read_value fuel s;
      match skip_ws r with
      | String "," r' => read_elements fuel (skip_ws r') (acc ++ [v])
      | String "]" r' => Some (Array (acc ++ [v]), r')
      | _ => None
      end
  end
with read_members (fuel : nat) (s : string) (acc : list (string * value))
  : option (value * string) :=
  match fuel with
  | O => None
  | S fuel =>
      match s with
      | String "034" r =>
          '(k, r) ← read_string r;
          match skip_ws r with
          | String ":" r =>
              '(v, r) ← read_value fuel (skip_ws r);
              match skip_ws r with
              | String "," r' => read_members fuel (skip_ws r') (acc ++ [(k, v)])
              | String "}" r' => Some (Object (acc ++ [(k, v)]), r')
              | _ => None
              end
          | _ => None
          end
      | _ => None
      end
  end.

(** The value a JSON text denotes; [None] when the text is not JSON. *)
Definition parse (s : string) : option value :=
  '(v, r) ← read_value (2 * String.length s + 2) (skip_ws s);
  match skip_ws r with
  | EmptyString => Some v
  | _ => None
  end.

(** The member a struct field named [name] is filled from: the last one
    whose key is the name, letter case aside. *)
Definition field (name : string) (members : list (string * value)) : option value :=
  snd <$> last (filter (λ kv, HTTP.ToLower kv.1 = HTTP.ToLower name) members).

(** The digits of a decimal literal as a number. *)
Fixpoint digits_value (acc : Z) (s : string) : option Z :=
  match s with
  | EmptyString => Some acc
  | String c s' =>
      if is_digit c then digits_value (10 * acc + Z.of_N (N_of_ascii c - 48)) s'
      else None
  end.

(** A number literal read into an [int64] field. *)
Definition int64_of_literal (n : string) : option Z :=
  z ← match n with
      | String "-" d => if String.eqb d "" then None else Z.opp <$> digits_value 0 d
      | d => if String.eqb d "" then None else digits_value 0 d
      end;
  if ((- 2 ^ 63 <=? z) && (z <? 2 ^ 63))%Z then Some z else None.

(** Decoding into a field of a Go type: [None] is the decoder's error,
    [Some d] the value the field holds afterwards, from its value [d0]
    before ([null] leaves it). *)
Definition into_string (v : option value) (d0 : string) : option string :=
  match v with
  | None | Some Null => Some d0
  | Some (Str s) => Some s
  | Some _ => None
  end.

Definition into_int64 (v : option value) (d0 : Z) : option Z :=
  match v with
  | None | Some Null => Some d0
  | Some (Number n) => int64_of_literal n
  | Some _ => None
  end.

Definition into_string_ptr (v : option value) : option (option string) :=
  match v with
  | None | Some Null => Some None
  | Some (Str s) => Some (Some s)
  | Some _ => None
  end.

Definition into_int64_ptr (v : option value) : option (option Z) :=
  match v with
  | None | Some Null => Some None
  | Some (Number n) => Some <$> int64_of_literal n
  | Some _ => None
  end.

End JSON.

(** ** Alist answers as JSON *)

Module AlistJSON.
Import Alist.

(** The envelope [{code, message, data}] read as [json.Unmarshal] reads it
    into an [AlistResponse[T]]: [null] leaves the zero value, an object
    fills the fields it names, anything else is an error. *)
Definition envelope {T} (zero : T) (into_data : option JSON.value → T → option T)
    (body : string) : option (AlistResponse T) :=
  v ← JSON.parse body;
  match v with
  | JSON.Null => Some (mkResponse 0%Z "" zero)
  | JSON.Object members =>
      code ← JSON.into_int64 (JSON.field "code" members) 0%Z;
      message ← JSON.into_string (JSON.field "message" members) "";
      data ← into_data (JSON.field "data" members) zero;
      Some (mkResponse code message data)
  | _ => None
  end.

Definition into_AuthLoginData (v : option JSON.value) (d0 : AuthLoginData)
  : option AuthLoginData :=
  match v with
  | None | Some JSON.Null => Some d0
  | Some (JSON.Object members) =>
      mkLogin <$> JSON.into_string (JSON.field "token" members) (Token d0)
  | Some _ => None
  end.

#[global] Instance Unmarshal_AuthLoginData : Unmarshal AuthLoginData :=
  envelope (mkLogin "") into_AuthLoginData.

(** [FsGetData], as far as the resolver reads it. *)
Record FsGetData := mkFsGet { RawURL : string; Sign : string; Size : Z }.

Definition into_FsGetData (v : option JSON.value) (d0 : FsGetData) : option FsGetData :=
  match v with
  | None | Some JSON.Null => Some d0
  | Some (JSON.Object members) =>
      raw ← JSON.into_string (JSON.field "raw_url" members) (RawURL d0);
      sign ← JSON.into_string (JSON.field "sign" members) (Sign d0);
      size ← JSON.into_int64 (JSON.field "size" members) (Size d0);
      Some (mkFsGet raw sign size)
  | Some _ => None
  end.

#[global] Instance Unmarshal_FsGetData : Unmarshal FsGetData :=
  envelope (mkFsGet "" "" 0%Z) into_FsGetData.

(** A server that answers every call with one body, at once. *)
Definition answers (body : string)
  : Request → option string → time.Time → Exchange * time.Time :=
  λ _ _ t, (Response 200%Z (Go.Ok body), t).

(** A client with an empty cache that takes entries up to 40 KiB, a token
    without expiry, read at the Unix epoch. *)
Definition fresh_world : World Cache.MapCache :=
  mkWorld (mkToken "seed" 0%Z) (Some (Cache.mkMapCache ∅ 40960%Z)) (time.Unix 0) [].

Definition FsGetRequest (path : string) : Request :=
  mkRequest ("fs_get:" +:+ path) true "/api/fs/get".

End AlistJSON.

(** ** strconv and a reading of URLs *)

Module strconv.

(** [strconv.ParseInt(s, 10, 64)]: an optional sign and decimal digits,
    within the range of an [int64]; [None] is its error. *)
Definition ParseInt (s : string) : option Z :=
  let '(neg, digits) :=
    match s with
    | String "-" d => (true, d)
    | String "+" d => (false, d)
    | d => (false, d)
    end in
  if String.eqb digits "" then None
  else
    n ← JSON.digits_value 0 digits;
    let z := if neg : bool then (- n)%Z else n in
    if ((- 2 ^ 63 <=? z) && (z <? 2 ^ 63))%Z then Some z else None.

End strconv.

(** ** The STRM resolvers *)

Module Strm.
Import GoString Go Cache.

(** *** The HTTP resolver *)

Section HTTPStrm.
Context {C : Type} `{!BigCache C}.
(** [getFinalURL(client, content, ua)], declared outside the files at
    hand: the URL it returns and its error. *)
Variable getFinalURL : string → string → string * option error.

(** The cache [getHTTPStrmHandler] gives its closure: one is made only when
    caching, the TTL and the following of final URLs are all switched on;
    [created] is what [CreateOptimizedCache] comes to. *)
Definition handler_cache (Cache_Enable : bool) (HTTPStrmTTL : Z) (FinalURL : bool)
  (created : result C) : result (option C) :=
  if Cache_Enable && (0 <? HTTPStrmTTL)%Z && FinalURL then
    match created with
    | Ok c => Ok (Some c)
    | Err e => Err (Errorf "getHTTPStrmHandler" "创建 HTTPStrm 缓存失败")
    end
  else Ok None.

(** The closure [getHTTPStrmHandler] returns, over its cache ([None] when
    it has none). *)
Definition httpStrmHandler (FinalURL : bool) (content ua : string)
  : State (option C) string :=
  λ cache,
    if FinalURL then
      match cache ≫= (λ c, cache_Get c content) with
      | Some cachedURL => (cachedURL, cache)
      | None =>
          let '(finalURL, err) := getFinalURL content ua in
          (finalURL, (λ c, (cache_Set c content finalURL).1) <$> cache)
      end
    else (content, cache).

End HTTPStrm.

(** *** The Alist resolver *)

Record resolutionInfo := mkResolution { width : Z; height : Z; name : string }.

Record TranscodeResourceInfo := mkTranscode {
  t_url : string;
  isM3U8 : bool;
  expireAt : time.Time;
  resolution : resolutionInfo;
}.

Record alistStrmResult := mkAlistResult {
  url : string;
  fileSize : Z;
  transcodeResources : list TranscodeResourceInfo;
}.

(** An entry of [LiveTranscodingTaskList]. *)
Record LiveTranscodingTask := mkTask {
  Url : string;
  TemplateWidth : Z;
  TemplateHeight : Z;
  TemplateName : string;
}.

(** The parts of a parsed URL the resolver reads. *)
Record ParsedURL := mkURL { UPath : string; RawQuery : string }.

(** [Values.Get]. *)
Definition Values_Get (v : URL.Values) (key : string) : string :=
  match v !! key with
  | Some (x :: _) => x
  | _ => ""
  end.

(** [uint(n)] for an [int]. *)
Definition to_uint (n : Z) : Z := (n mod 2 ^ 64)%Z.

(** What the Alist client answers the resolver. *)
Record AlistAnswers := mkAnswers {
  GetAlistClient : result (string * string);   (* the endpoint and the user's base path *)
  FsGet : result AlistJSON.FsGetData;
  GetVideoPreviewData : result (list LiveTranscodingTask);
}.

Section AlistStrm.
(** [url.Parse] and [path.Join("/d", base, content)]. *)
Variable url_Parse : string → option ParsedURL.
Variable path_Join : string → string → string → string.

(** One turn of the loop over the transcoding tasks: the variant a task
    gives, or [None] when the task is skipped. *)
Definition variant_of (task : LiveTranscodingTask) : option TranscodeResourceInfo :=
  if String.eqb (Url task) "" then None
  else
    u ← url_Parse (Url task);
    let expireStr := Values_Get (URL.Query (RawQuery u)) "x-oss-expires" in
    if String.eqb expireStr "" then None
    else
      tsInt ← strconv.ParseInt expireStr;
      Some (mkTranscode (Url task) (HasSuffix (UPath u) ".m3u8") (time.Unix tsInt)
              (mkResolution (to_uint (TemplateHeight task)) (to_uint (TemplateHeight task))
                            (TemplateName task))).

Definition alistStrmHandler (AlistStrm_RawURL : bool) (answers : AlistAnswers)
  (content : string) (needTranscodeResourceInfo : bool) : result alistStrmResult :=
  match GetAlistClient answers with
  | Err e => Err (Errorf "alistStrmHandler" "获取 AlistClient 失败")
  | Ok (endpoint, basePath) =>
      match FsGet answers with
      | Err e => Err (Errorf "alistStrmHandler" "获取文件信息失败")
      | Ok fileData =>
          let url :=
            if AlistStrm_RawURL then AlistJSON.RawURL fileData
            else endpoint
                   +:+ (if String.eqb (AlistJSON.Sign fileData) "" then ""
                        else "?sign=" +:+ AlistJSON.Sign fileData)
                   +:+ path_Join "/d" basePath content in
          let res := mkAlistResult url (AlistJSON.Size fileData) [] in
          if needTranscodeResourceInfo then
            match GetVideoPreviewData answers with
            | Err e => Ok res
            | Ok tasks => Ok (mkAlistResult url (AlistJSON.Size fileData) (omap variant_of tasks))
            end
          else Ok res
      end
  end.

End AlistStrm.

(** A reading of URLs of the shape [scheme://host/path?query#fragment]: the
    path from the first [/] after the host, and the query. *)
Definition after_authority (s : string) : string :=
  let '(_, rest, found) := Cut "/" s in if found then String "/" rest else "".

Fixpoint drop_scheme (s : string) : string :=
  match s with
  | String ":" (String "/" (String "/" rest)) => after_authority rest
  | String _ s' => drop_scheme s'
  | EmptyString => EmptyString
  end.

Definition simple_Parse (raw : string) : option ParsedURL :=
  let '(before, _, _) := Cut "#" raw in
  let '(location, query, _) := Cut "?" before in
  Some (mkURL (drop_scheme location) query).

End Strm.

(** ** The JSON chain editor *)

Module JsonChain.
Import Go.

(** The values the handlers hand to [Set]. *)
Inductive jvalue :=
| JString (s : string)
| JInt (z : Z)
| JBool (b : bool).

(** [gjson.Type]. *)
Inductive gjson_Type := TNull | TFalse | TNumber | TString | TTrue | TJSON.

#[global] Instance gjson_Type_eq_dec : EqDecision gjson_Type.
Proof. solve_decision. Defined.

(** A [gjson.Result]: its type, and what [String()] and [Int()] give. *)
Record gjson_Result := mkResult { Type_ : gjson_Type; String_ : string; Int_ : Z }.

(** Modelled from the spec: [JsonChain] (package [utils], outside the files
    at hand), section 4.3: a JSON document held as a byte buffer, [Set]s that
    callers chain, and "a single final [Result()] materializes the bytes".
    The chain is the document it was made from and the edits asked of it. *)
Record JsonChain := mkChain { document : string; edits : list (string * jvalue) }.

Definition NewJsonChainFromBytesWithCopy (data : string) : JsonChain := mkChain data [].

Definition Set_ (path : string) (v : jvalue) (jc : JsonChain) : JsonChain :=
  mkChain (document jc) (edits jc ++ [(path, v)]).

Section Engine.
(** The path reader and writer the chain is built on (gjson and sjson). *)
Variable gjson_Get : string → string → gjson_Result.
Variable sjson_Set : string → string → jvalue → result string.

(** [Get]; every [Get] of the handlers comes before their first [Set]. *)
Definition Get (jc : JsonChain) (path : string) : gjson_Result :=
  gjson_Get (document jc) path.

(** [Result]: the edits applied in order, up to the first that fails. *)
Definition Result (jc : JsonChain) : result string :=
  foldl (λ acc e, match acc with
                  | Ok buf => sjson_Set buf e.1 e.2
                  | Err err => Err err
                  end) (Ok (document jc)) (edits jc).
End Engine.

End JsonChain.

(** ** What the rewriters share *)

Module Handler.
Import GoString Go HTTP.

(** [constants.StrmFileType]. *)
Inductive StrmFileType := HTTPStrm | AlistStrm | UnknownStrm.

(** The upstream response a rewriter is given: its headers, what reading
    its body comes to, and the [User-Agent] of the request it answers. *)
Record Upstream := mkUpstream {
  up_header : Header;
  up_body : result string;
  up_user_agent : string;
}.

(** The response a rewriter leaves. *)
Record Rewritten := mkRewritten { r_header : Header; r_body : string }.

(** The response with its body replaced and its length and type set anew. *)
Definition rewritten (rw : Upstream) (body : string) : Rewritten :=
  mkRewritten
    (Header_Set (Header_Set (up_header rw) "Content-Type" "application/json")
                "Content-Length" (Itoa (String.length body)))
    body.

(** What a gin handler does with the request. *)
Inductive Answer :=
| ReverseProxy
| Redirect (code : Z) (location : string)
| Nothing.

(** [strings.Index]-style search: [s] split at the first [old]. *)
Fixpoint split_first (old s : string) : option (string * string) :=
  if String.prefix old s
  then Some (EmptyString, substring (String.length old) (String.length s - String.length old) s)
  else match s with
       | EmptyString => None
       | String c s' =>
           match split_first old s' with
           | Some (before, after) => Some (String c before, after)
           | None => None
           end
       end.

(** [strings.Replace(s, old, new, 1)] for a non-empty [old]. *)
Definition Replace1 (s old new : string) : string :=
  match split_first old s with
  | Some (before, after) => before +:+ new +:+ after
  | None => s
  end.

End Handler.

(** ** The FNTV stream rewriter *)

Module FNTV.
Import GoString Go HTTP JsonChain Handler Strm.

Section Handler.
Variable gjson_Get : string → string → gjson_Result.
Variable sjson_Set : string → string → jvalue → result string.
(** [recgonizeStrmFileType], declared outside the files at hand: the kind,
    and the option as a string when it is one. *)
Variable recgonizeStrmFileType : string → StrmFileType * option string.
(** The handler's [httpStrmHandler], and [alistStrmHandler] on the remote
    path and the Alist address. *)
Variable httpStrmHandler : string → string → string.
Variable alistStrmHandler : string → string → bool → result alistStrmResult.
(** The clock, as [time.Since] reads it for the [i]-th variant. *)
Variable now : nat → time.Time.

(** The loop over [res.transcodeResources], from index [i]. *)
Fixpoint set_variants (i : nat) (resources : list TranscodeResourceInfo) (jc : JsonChain)
  : JsonChain :=
  match resources with
  | [] => jc
  | resource :: rest =>
      let basePath := "data.direct_link_qualities." +:+ Itoa (i + 1) +:+ "." in
      let jc := Set_ (basePath +:+ "resolution")
                  (JString ("AlistStrm 直链 - 转码 " +:+ name (resolution resource))) jc in
      let jc := Set_ (basePath +:+ "url") (JString (t_url resource)) jc in
      let jc := Set_ (basePath +:+ "is_m3u8") (JBool (isM3U8 resource)) jc in
      let jc := Set_ (basePath +:+ "expire_at")
                  (JInt (time.whole_Seconds (time.Since (now i) (expireAt resource)))) jc in
      set_variants (S i) rest jc
  end.

(** The end of [ModifyStream]: the chain is materialized and shipped. *)
Definition ship (rw : Upstream) (jc : JsonChain) : outcome (result Rewritten) :=
  match Result sjson_Set jc with
  | Err e => Returns (Err e)
  | Ok data => Returns (Ok (rewritten rw data))
  end.

(** The upstream bytes, forwarded as they came. *)
Definition forward (rw : Upstream) (data : string) : outcome (result Rewritten) :=
  Returns (Ok (mkRewritten (up_header rw) data)).

Definition ModifyStream (rw : Upstream) : outcome (result Rewritten) :=
  match up_body rw with
  | Err e => Returns (Err e)
  | Ok data =>
      let jsonChain := NewJsonChainFromBytesWithCopy data in
      let codeRes := Get gjson_Get jsonChain "code" in
      if negb (bool_decide (Type_ codeRes = TNumber)) then forward rw data
      else if negb (Int_ codeRes =? 0)%Z then forward rw data
      else
        let filePathRes := Get gjson_Get jsonChain "data.file_stream.path" in
        if negb (bool_decide (Type_ filePathRes = TString)) then forward rw data
        else
          let filePath := String_ filePathRes in
          let '(strmFileType, opt) := recgonizeStrmFileType filePath in
          match strmFileType with
          | HTTPStrm =>
              let urlRes := Get gjson_Get jsonChain "data.direct_link_qualities.0.url" in
              if negb (bool_decide (Type_ urlRes = TString)) then forward rw data
              else
                let redirectURL := httpStrmHandler (String_ urlRes) (up_user_agent rw) in
                ship rw
                  (Set_ "data.direct_link_qualities.0.url" (JString redirectURL)
                     (Set_ "data.direct_link_qualities.0.resolution"
                        (JString "HTTPStrm 直链") jsonChain))
          | AlistStrm =>
              let remoteFilepathRes :=
                Get gjson_Get jsonChain "data.direct_link_qualities.0.url" in
              if negb (bool_decide (Type_ remoteFilepathRes = TString)) then forward rw data
              else
                match opt with
                | None => Panics "interface conversion: interface {} is not string"
                | Some alistAddr =>
                    match alistStrmHandler (String_ remoteFilepathRes) alistAddr true with
                    | Err e => forward rw data
                    | Ok res =>
                        let jc :=
                          Set_ "data.file_stream.size" (JInt (fileSize res))
                            (Set_ "data.direct_link_qualities.0.url" (JString (url res))
                               (Set_ "data.direct_link_qualities.0.resolution"
                                  (JString "AlistStrm 直链 - 原画") jsonChain)) in
                        ship rw (set_variants 0 (transcodeResources res) jc)
                    end
                end
          | UnknownStrm => ship rw jsonChain
          end
  end.

End Handler.
End FNTV.

(** ** The Emby and Jellyfin handlers *)

Module MediaServer.
Import GoString Go HTTP JsonChain Handler Strm.

(** The media source of a [PlaybackInfoResponse] or of an item, with the
    fields the handlers read; a nil pointer is [None]. *)
Record MediaSourceInfo := mkSource {
  ID : option string;
  ItemID : option string;
  Path : option string;
  Protocol : option string;
  DirectStreamURL : option string;
  Size : option Z;
}.

Record PlaybackInfoResponse := mkPlayback { MediaSources : list MediaSourceInfo }.

Record BaseItemDto := mkItem { item_Path : option string; item_MediaSources : list MediaSourceInfo }.

(** The answer of [ItemsServiceQueryItem]. *)
Record ItemResponse := mkItems { Items : list BaseItemDto }.

(** The request of a video stream, as [VideosHandler] reads it. *)
Record VideoRequest := mkVideoRequest {
  Method : string;
  URL_Path : string;
  mediasourceid : string;       (* [ctx.Query("mediasourceid")] *)
  UserAgent : string;
}.

(** What a handler is built on: the decoder, the media server's client, the
    STRM recognizer and resolvers, the two editors of a media source
    ([processHTTPStrmPlaybackInfo] and [processAlistStrmPlaybackInfo]), the
    engine of the JSON chain, the pattern of paths to canonicalize, and the
    protocol constant of a remote source ([emby.HTTP], [jellyfin.HTTP]). *)
Class Deps := {
  Unmarshal : string → option PlaybackInfoResponse;
  ItemsServiceQueryItem : string → result ItemResponse;
  recgonizeStrmFileType : string → StrmFileType * option string;
  httpStrmHandler : string → string → string;
  alistStrmHandler : string → string → bool → result alistStrmResult;
  processHTTPStrmPlaybackInfo :
    JsonChain → string → string → string → option string → JsonChain;
  processAlistStrmPlaybackInfo :
    JsonChain → string → string → string → string → option string → string → option Z → JsonChain;
  sjson_Set : string → string → jvalue → result string;
  VideoRedirectReg_FindStringSubmatch : string → list string;
  Protocol_HTTP : string;
}.

(** The end of a rewriter: the chain is materialized and shipped. *)
Definition ship `{!Deps} (rw : Upstream) (jc : JsonChain) : outcome (result Rewritten) :=
  match Result sjson_Set jc with
  | Err e => Returns (Err e)
  | Ok body => Returns (Ok (rewritten rw body))
  end.

(** The source's item cannot be queried, or its path is of no STRM kind;
    [query_id] is what the handler asks the media server for. *)
Definition untouched `{!Deps} (query_id : string → string) (ms : MediaSourceInfo) : Prop :=
  ∃ id, ID ms = Some id ∧
    match ItemsServiceQueryItem (query_id id) with
    | Err _ => True
    | Ok r => ∃ item path, head (Items r) = Some item ∧ item_Path item = Some path
                           ∧ (recgonizeStrmFileType path).1 = UnknownStrm
    end.

(** The id Emby's handlers query: the source's id without its prefix. *)
Definition without_prefix (id : string) : string := Replace1 id "mediasource_" "".

Module Emby.
Section Handler.
Context `{!Deps}.

(** The body of the loop of [ModifyPlaybackInfo] for the source at [index]:
    [None] stands for [continue]. *)
Definition modify_source (index : nat) (mediasource : MediaSourceInfo) (jsonChain : JsonChain)
  : outcome JsonChain :=
  id ← deref (ID mediasource);
  match ItemsServiceQueryItem (Replace1 id "mediasource_" "") with
  | Err e => Returns jsonChain
  | Ok itemResponse =>
      let bsePath := "MediaSources." +:+ Itoa index +:+ "." in
      item ← index0 (Items itemResponse);
      path ← deref (item_Path item);
      let '(strmFileType, opt) := recgonizeStrmFileType path in
      match strmFileType with
      | HTTPStrm =>
          itemID ← deref (ItemID mediasource);
          Returns (processHTTPStrmPlaybackInfo jsonChain bsePath itemID id
                     (DirectStreamURL mediasource))
      | AlistStrm =>
          itemID ← deref (ItemID mediasource);
          match opt with
          | None => Panics "interface conversion: interface {} is not string"
          | Some alistAddr =>
              Returns (processAlistStrmPlaybackInfo jsonChain bsePath itemID id alistAddr
                         (DirectStreamURL mediasource) path (Size mediasource))
          end
      | UnknownStrm => Returns jsonChain
      end
  end.

Fixpoint modify_sources (index : nat) (sources : list MediaSourceInfo) (jsonChain : JsonChain)
  : outcome JsonChain :=
  match sources with
  | [] => Returns jsonChain
  | mediasource :: rest =>
      jsonChain ← modify_source index mediasource jsonChain;
      modify_sources (S index) rest jsonChain
  end.

Definition ModifyPlaybackInfo (rw : Upstream) : outcome (result Rewritten) :=
  match up_body rw with
  | Err e => Returns (Err e)
  | Ok body =>
      let jsonChain := NewJsonChainFromBytesWithCopy body in
      match Unmarshal body with
      | None => Returns (Err (Errorf "ModifyPlaybackInfo" "解析 emby.PlaybackInfoResponse Json 错误"))
      | Some playbackInfoResponse =>
          jsonChain ← modify_sources 0 (MediaSources playbackInfoResponse) jsonChain;
          ship rw jsonChain
      end
  end.

(** The loop of [VideosHandler] over the item's media sources. *)
Fixpoint redirect_source (strmFileType : StrmFileType) (opt : option string)
  (mediaSourceID_without_prefix ua : string) (sources : list MediaSourceInfo)
  : outcome Answer :=
  match sources with
  | [] => Returns Nothing
  | mediasource :: rest =>
      id ← deref (ID mediasource);
      if String.eqb (Replace1 id "mediasource_" "") mediaSourceID_without_prefix then
        match strmFileType with
        | HTTPStrm =>
            protocol ← deref (Protocol mediasource);
            if String.eqb protocol Protocol_HTTP then
              path ← deref (Path mediasource);
              Returns (Redirect StatusFound (httpStrmHandler path ua))
            else redirect_source strmFileType opt mediaSourceID_without_prefix ua rest
        | AlistStrm =>
            path ← deref (Path mediasource);
            match opt with
            | None => Panics "interface conversion: interface {} is not string"
            | Some alistAddr =>
                match alistStrmHandler path alistAddr false with
                | Err e => Returns ReverseProxy
                | Ok res => Returns (Redirect StatusFound (url res))
                end
            end
        | UnknownStrm => Returns ReverseProxy
        end
      else redirect_source strmFileType opt mediaSourceID_without_prefix ua rest
  end.

(** [VideosHandler] past the canonical redirect: the item is queried and a
    STRM source redirected. *)
Definition redirect_strm (req : VideoRequest) : outcome Answer :=
  let mediaSourceID := mediasourceid req in
  let mediaSourceID_without_prefix := Replace1 mediaSourceID "mediasource_" "" in
  match ItemsServiceQueryItem mediaSourceID_without_prefix with
  | Err e => Returns ReverseProxy
  | Ok itemResponse =>
      item ← index0 (Items itemResponse);
      path ← deref (item_Path item);
      if negb (HasSuffix (ToLower path) ".strm") then Returns ReverseProxy
      else
        let '(strmFileType, opt) := recgonizeStrmFileType path in
        redirect_source strmFileType opt mediaSourceID_without_prefix (UserAgent req)
                        (item_MediaSources item)
  end.

Definition VideosHandler (req : VideoRequest) : outcome Answer :=
  if String.eqb (Method req) MethodHead then Returns ReverseProxy
  else
    let orginalPath := URL_Path req in
    let matches := VideoRedirectReg_FindStringSubmatch orginalPath in
    if (length matches =? 2)%nat then
      let redirectPath := "/videos/" +:+ default "" (matches !! 0%nat) +:+ "/stream" in
      Returns (Redirect StatusFound redirectPath)
    else redirect_strm req.

End Handler.
End Emby.

Module Jellyfin.
Section Handler.
Context `{!Deps}.

Definition modify_source (index : nat) (mediasource : MediaSourceInfo) (jsonChain : JsonChain)
  : outcome JsonChain :=
  id ← deref (ID mediasource);
  match ItemsServiceQueryItem id with
  | Err e => Returns jsonChain
  | Ok itemResponse =>
      item ← index0 (Items itemResponse);
      path ← deref (item_Path item);
      let '(strmFileType, opt) := recgonizeStrmFileType path in
      let bsePath := "MediaSources." +:+ Itoa index +:+ "." in
      match strmFileType with
      | HTTPStrm =>
          Returns (processHTTPStrmPlaybackInfo jsonChain bsePath id id
                     (DirectStreamURL mediasource))
      | AlistStrm =>
          match opt with
          | None => Panics "interface conversion: interface {} is not string"
          | Some alistAddr =>
              Returns (processAlistStrmPlaybackInfo jsonChain bsePath id id alistAddr
                         (DirectStreamURL mediasource) path (Size mediasource))
          end
      | UnknownStrm => Returns jsonChain
      end
  end.

Fixpoint modify_sources (index : nat) (sources : list MediaSourceInfo) (jsonChain : JsonChain)
  : outcome JsonChain :=
  match sources with
  | [] => Returns jsonChain
  | mediasource :: rest =>
      jsonChain ← modify_source index mediasource jsonChain;
      modify_sources (S index) rest jsonChain
  end.

Definition ModifyPlaybackInfo (rw : Upstream) : outcome (result Rewritten) :=
  match up_body rw with
  | Err e => Returns (Err e)
  | Ok data =>
      let jsonChain := NewJsonChainFromBytesWithCopy data in
      match Unmarshal data with
      | None =>
          Returns (Err (Errorf "ModifyPlaybackInfo" "解析 jellyfin.PlaybackInfoResponse JSON 错误"))
      | Some playbackInfoResponse =>
          jsonChain ← modify_sources 0 (MediaSources playbackInfoResponse) jsonChain;
          ship rw jsonChain
      end
  end.

Fixpoint redirect_source (strmFileType : StrmFileType) (opt : option string)
  (mediaSourceID ua : string) (sources : list MediaSourceInfo) : outcome Answer :=
  match sources with
  | [] => Returns Nothing
  | mediasource :: rest =>
      id ← deref (ID mediasource);
      if String.eqb id mediaSourceID then
        match strmFileType with
        | HTTPStrm =>
            protocol ← deref (Protocol mediasource);
            if String.eqb protocol Protocol_HTTP then
              path ← deref (Path mediasource);
              Returns (Redirect StatusFound (httpStrmHandler path ua))
            else redirect_source strmFileType opt mediaSourceID ua rest
        | AlistStrm =>
            path ← deref (Path mediasource);
            match opt with
            | None => Panics "interface conversion: interface {} is not string"
            | Some alistAddr =>
                match alistStrmHandler path alistAddr false with
                | Err e => Returns ReverseProxy
                | Ok res => Returns (Redirect StatusFound (url res))
                end
            end
        | UnknownStrm => Returns ReverseProxy
        end
      else redirect_source strmFileType opt mediaSourceID ua rest
  end.

Definition VideosHandler (req : VideoRequest) : outcome Answer :=
  if String.eqb (Method req) MethodHead then Returns ReverseProxy
  else
    let mediaSourceID := mediasourceid req in
    match ItemsServiceQueryItem mediaSourceID with
    | Err e => Returns ReverseProxy
    | Ok itemResponse =>
        item ← index0 (Items itemResponse);
        path ← deref (item_Path item);
        if negb (HasSuffix (ToLower path) ".strm") then Returns ReverseProxy
        else
          let '(strmFileType, opt) := recgonizeStrmFileType path in
          redirect_source strmFileType opt mediaSourceID (UserAgent req)
                          (item_MediaSources item)
    end.

End Handler.
End Jellyfin.

End MediaServer.

(** ** Concrete collaborators, to run the handlers on *)

Module Examples.
Import GoString Go HTTP JsonChain Handler Strm MediaServer.

(** A media source read from a JSON object. *)
Definition into_source (v : JSON.value) : option MediaSourceInfo :=
  match v with
  | JSON.Object members =>
      id ← JSON.into_string_ptr (JSON.field "Id" members);
      itemId ← JSON.into_string_ptr (JSON.field "ItemId" members);
      path ← JSON.into_string_ptr (JSON.field "Path" members);
      protocol ← JSON.into_string_ptr (JSON.field "Protocol" members);
      direct ← JSON.into_string_ptr (JSON.field "DirectStreamUrl" members);
      size ← JSON.into_int64_ptr (JSON.field "Size" members);
      Some (mkSource id itemId path protocol direct size)
  | JSON.Null => Some (mkSource None None None None None None)
  | _ => None
  end.

(** [json.Unmarshal] into a [PlaybackInfoResponse]. *)
Definition Unmarshal_PlaybackInfo (body : string) : option PlaybackInfoResponse :=
  v ← JSON.parse body;
  match v with
  | JSON.Null => Some (mkPlayback [])
  | JSON.Object members =>
      match JSON.field "MediaSources" members with
      | None | Some JSON.Null => Some (mkPlayback [])
      | Some (JSON.Array elements) => mkPlayback <$> mapM into_source elements
      | Some _ => None
      end
  | _ => None
  end.

(** A library of three items: [42] is an HTTP STRM, [43] a plain file, and
    the server answers the query for [7] with no item at all. *)
Definition library (id : string) : result ItemResponse :=
  if String.eqb id "42" then
    Ok (mkItems [mkItem (Some "/strm/http/vid.strm")
                   [mkSource (Some "42") (Some "42") (Some "http://origin.example/vid.mp4")
                             (Some "Http") None None]])
  else if String.eqb id "43" then
    Ok (mkItems [mkItem (Some "/media/film.mkv")
                   [mkSource (Some "43") (Some "43") (Some "/media/film.mkv")
                             (Some "File") None None]])
  else if String.eqb id "7" then Ok (mkItems [])
  else Err (Errorf "ItemsServiceQueryItem" "404").

(** A recognizer by the directory of the STRM file. *)
Definition by_directory (path : string) : StrmFileType * option string :=
  if HasPrefix path "/strm/http/" then (HTTPStrm, None)
  else if HasPrefix path "/strm/alist/" then (AlistStrm, Some "http://alist:5244")
  else (UnknownStrm, None).

(** Modelled from the spec: the canonicalization pattern of section 4.7,
    [/videos/{id}/original.ext], with [{id}] its one group (the pattern
    itself, [VideoRedirectReg], is declared outside the files at hand).
    [FindStringSubmatch] gives the whole match and the group. *)
Definition original_ext (path : string) : list string :=
  if HasPrefix path "/videos/" then
    let rest := substring 8 (String.length path - 8) path in
    let '(id, tail, found) := Cut "/" rest in
    if found && negb (String.eqb id "") && HasPrefix tail "original."
       && negb (String.eqb tail "original.") && negb (contains_byte "/" tail)
    then [path; id]
    else []
  else [].

(** An engine that refuses every edit. *)
Definition no_sjson (buf path : string) (v : jvalue) : result string :=
  Err (Errorf "sjson" "unsupported").

#[global] Instance deps : Deps := {
  Unmarshal := Unmarshal_PlaybackInfo;
  ItemsServiceQueryItem := library;
  recgonizeStrmFileType := by_directory;
  httpStrmHandler := λ content _, content;
  alistStrmHandler := λ _ _ _, Err (Errorf "alistStrmHandler" "no Alist server");
  processHTTPStrmPlaybackInfo := λ jc bsePath _ _ _,
    Set_ (bsePath +:+ "SupportsDirectPlay") (JBool true) jc;
  processAlistStrmPlaybackInfo := λ jc bsePath _ _ _ _ _ _,
    Set_ (bsePath +:+ "SupportsDirectPlay") (JBool true) jc;
  sjson_Set := no_sjson;
  VideoRedirectReg_FindStringSubmatch := original_ext;
  Protocol_HTTP := "Http";
}.

(** The value at a dotted path of a JSON value. *)
Fixpoint at_path (segments : list string) (v : JSON.value) : option JSON.value :=
  match segments with
  | [] => Some v
  | seg :: rest =>
      match v with
      | JSON.Object members =>
          kv ← head (filter (λ kv, kv.1 = seg) members);
          at_path rest kv.2
      | JSON.Array elements =>
          n ← JSON.digits_value 0 seg;
          element ← elements !! Z.to_nat n;
          at_path rest element
      | _ => None
      end
  end.

(** A path reader on JSON texts. *)
Definition get_path (json path : string) : gjson_Result :=
  match JSON.parse json ≫= at_path (pieces "." path) with
  | Some (JSON.Str s) => mkResult TString s 0
  | Some (JSON.Number n) => mkResult TNumber n (default 0%Z (JSON.int64_of_literal n))
  | Some (JSON.Bool true) => mkResult TTrue "true" 1
  | Some (JSON.Bool false) => mkResult TFalse "false" 0
  | Some JSON.Null | None => mkResult TNull "" 0
  | Some _ => mkResult TJSON "" 0
  end.

(** Two PlaybackInfo bodies: one whose sources are a plain file and an id
    the library does not know, one with a source the library has no item for. *)
Definition two_plain_sources : string :=
  JSON.quoted "{'MediaSources':[{'Id':'mediasource_43','ItemId':'43','Path':'/media/film.mkv','Protocol':'File','Size':123},{'Id':'99'}],'PlaySessionId':'abc'}".

Definition source_without_item : string :=
  JSON.quoted "{'MediaSources':[{'Id':'43','ItemId':'43'},{'Id':'7','ItemId':'7'}]}".

End Examples.

(** ** Fixtures for the resolvers *)

Module StrmExamples.
Import Go Cache Strm.

(** An origin that cannot be reached: [getFinalURL] fails, and returns no
    URL with its error. *)
Definition unreachable_origin (content ua : string) : string * option error :=
  ("", Some (Errorf "getFinalURL" "request failed")).

Definition empty_cache : option MapCache := Some (mkMapCache ∅ 40960%Z).

(** An Alist server with one file and one transcoded variant of it, whose
    signed URL expires at second 1893456000 of the Unix era. *)
Definition one_variant : AlistAnswers :=
  mkAnswers (Ok ("http://alist:5244", "/"))
            (Ok (AlistJSON.mkFsGet "https://oss/x" "s" 5000000000))
            (Ok [mkTask "https://oss.example/v/fhd.m3u8?x-oss-expires=1893456000&sig=abc"
                        1920 1080 "FHD"]).

Definition resolve (content alistAddr : string) (need : bool) : result alistStrmResult :=
  alistStrmHandler simple_Parse (λ a b c, a +:+ b +:+ c) true one_variant content need.

(** The clock reads one hour before that expiry. *)
Definition an_hour_before (i : nat) : time.Time := time.Unix (1893456000 - 3600).

(** An FNTV stream envelope for an Alist STRM. *)
Definition stream_body : string :=
  JSON.quoted "{'code':0,'msg':'','data':{'file_stream':{'path':'/strm/alist/movie.strm','size':1},'direct_link_qualities':[{'resolution':'原画','url':'/movie.mkv'}]}}".

End StrmExamples.

(** ** Cache entries as JSON *)

Module CacheJSON.
Import GoString Middleware.

Definition alphabet : string :=
  "ABCDEFGHIJKLMNOPQRSTUVWXYZabcdefghijklmnopqrstuvwxyz0123456789+/".

Definition sextet (n : N) : ascii :=
  default "="%char (String.get (N.to_nat n) alphabet).

(** [base64.StdEncoding], as [json.Marshal] writes a byte slice. *)
Fixpoint base64 (s : string) : string :=
  match s with
  | EmptyString => EmptyString
  | String a EmptyString =>
      let n := N_of_ascii a in
      String (sextet (n / 4)) (String (sextet ((n mod 4) * 16)) "==")
  | String a (String b EmptyString) =>
      let n := (N_of_ascii a * 256 + N_of_ascii b)%N in
      String (sextet (n / 1024))
        (String (sextet ((n / 16) mod 64)) (String (sextet ((n mod 16) * 4)) "="))
  | String a (String b (String c rest)) =>
      let n := ((N_of_ascii a * 256 + N_of_ascii b) * 256 + N_of_ascii c)%N in
      String (sextet (n / 262144))
        (String (sextet ((n / 4096) mod 64))
           (String (sextet ((n / 64) mod 64)) (String (sextet (n mod 64)) (base64 rest))))
  end.

Fixpoint index_of (c : ascii) (s : string) (i : N) : option N :=
  match s with
  | EmptyString => None
  | String a s' => if Ascii.eqb a c then Some i else index_of c s' (i + 1)
  end.

(** The bytes a padded base64 text stands for. *)
Fixpoint unbase64 (s : string) : option string :=
  match s with
  | EmptyString => Some EmptyString
  | String a (String b (String c (String d rest))) =>
      x ← index_of a alphabet 0;
      y ← index_of b alphabet 0;
      if Ascii.eqb c "=" then
        if Ascii.eqb d "=" && String.eqb rest ""
        then Some (String (ascii_of_N (x * 4 + y / 16)) "")
        else None
      else
        z ← index_of c alphabet 0;
        if Ascii.eqb d "=" then
          if String.eqb rest ""
          then Some (String (ascii_of_N (x * 4 + y / 16))
                       (String (ascii_of_N ((y mod 16) * 16 + z / 4)) ""))
          else None
        else
          w ← index_of d alphabet 0;
          tail ← unbase64 rest;
          Some (String (ascii_of_N (x * 4 + y / 16))
                  (String (ascii_of_N ((y mod 16) * 16 + z / 4))
                     (String (ascii_of_N ((z mod 4) * 64 + w)) tail)))
  | _ => None
  end.

Definition lowerhex (n : N) : ascii :=
  default "0"%char (String.get (N.to_nat n) "0123456789abcdef").

(** A string literal: quotation marks, backslashes and control bytes are
    escaped, every other byte is written as it is. *)
Fixpoint escape (s : string) : string :=
  match s with
  | EmptyString => EmptyString
  | String c s' =>
      if Ascii.eqb c "034" then String "\" (String "034" (escape s'))
      else if Ascii.eqb c "\" then String "\" (String "\" (escape s'))
      else if (N_of_ascii c <? 32)%N then
        "\u00" +:+ String (lowerhex (N_of_ascii c / 16))
                     (String (lowerhex (N_of_ascii c mod 16)) (escape s'))
      else String c (escape s')
  end.

Definition literal (s : string) : string :=
  String "034" (escape s) +:+ String "034" "".

(** The decimal digits of a natural number, and a status code in decimal. *)
Definition decimal (z : Z) : string :=
  if (z <? 0)%Z then "-" +:+ Go.Itoa (Z.to_nat (- z)) else Go.Itoa (Z.to_nat z).

Definition member (kv : string * string) : string := literal kv.1 +:+ ":" +:+ literal kv.2.

Fixpoint join (sep : string) (l : list string) : string :=
  match l with
  | [] => ""
  | [x] => x
  | x :: rest => x +:+ sep +:+ join sep rest
  end.

(** [CacheData.Json]: the fields in the order of the struct, the header map
    in the order of its keys, the body in base64. *)
Definition Json (c : CacheData) : string :=
  let keys := sort_Strings (map_to_list (CHeader c)).*1 in
  let members := (λ k, member (k, default "" (CHeader c !! k))) <$> keys in
  "{" +:+ literal "StatusCode" +:+ ":" +:+ decimal (StatusCode c) +:+ ","
      +:+ literal "Header" +:+ ":{" +:+ join "," members +:+ "},"
      +:+ literal "Body" +:+ ":" +:+ literal (base64 (CBody c)) +:+ "}".

Definition into_header (v : option JSON.value) : option (gmap string string) :=
  match v with
  | None | Some JSON.Null => Some ∅
  | Some (JSON.Object members) =>
      foldl (λ acc kv, m ← acc;
                       match kv.2 with
                       | JSON.Str s => Some (<[kv.1 := s]> m)
                       | _ => None
                       end) (Some ∅) members
  | Some _ => None
  end.

Definition into_bytes (v : option JSON.value) : option string :=
  match v with
  | None | Some JSON.Null => Some ""
  | Some (JSON.Str s) => unbase64 s
  | Some _ => None
  end.

(** [ParseCacheData]. *)
Definition ParseCacheData (data : string) : option CacheData :=
  v ← JSON.parse data;
  match v with
  | JSON.Null => Some (mkCacheData 0 ∅ "")
  | JSON.Object members =>
      code ← JSON.into_int64 (JSON.field "StatusCode" members) 0%Z;
      header ← into_header (JSON.field "Header" members);
      body ← into_bytes (JSON.field "Body" members);
      Some (mkCacheData code header body)
  | _ => None
  end.

(** A poster behind the proxy: the chain answers every request with the
    same small image and a cookie. *)
Definition poster : Chain :=
  λ _, [SetHeader "Content-Type" "image/jpeg"; SetHeader "Set-Cookie" "session=1";
        WriteHeader 200; Write "JPEG-"; Write "DATA"].

Definition images (path : string) : bool := HasPrefix path "/emby/Items/".

Definition get_poster (tag : string) : Context :=
  mkContext (mkRequest "GET" "/emby/Items/54/Images/Primary" ("tag=" +:+ tag))
            (mkWriter 200 ∅ "").

Definition empty_pool : Cache.Pool Cache.MapCache :=
  Cache.mkPool (Cache.mkMapCache ∅ 40960%Z) [].

End CacheJSON.

(** ** utils: URL texts *)

Module Utils.
Import URL.

(** [IsURLEncoded]: the text can be unescaped, and escaping what it stands
    for gives the text back. *)
Definition IsURLEncoded (u : string) : bool :=
  match QueryUnescape u with
  | None => false
  | Some unescaped => String.eqb (QueryEscape unescaped) u
  end.

(** The text is made of bytes [QueryEscape] writes as they are. *)
Definition unreserved (s : string) : bool :=
  HTTP.all_bytes (λ c, negb (shouldEscape c)) s.

End Utils.

(** ** What a chain writes *)

Module Written.
Import Middleware.

(** The bytes a run of writer actions hands to [Write], in order. *)
Fixpoint written (l : list WriterAction) : string :=
  match l with
  | [] => ""
  | Write data :: l => data +:+ written l
  | _ :: l => written l
  end.

End Written.

(** * Properties *)

(** ** The byte order on strings is a total order *)

Module GoStringFacts.
Import GoString.

Lemma append_String a s t : String a s +:+ t = String a (s +:+ t).
Proof. reflexivity. Qed.

Lemma append_empty_r s : s +:+ "" = s.
Proof. induction s as [|a s IH]; [done|]. rewrite append_String. by f_equal. Qed.

Lemma append_assoc_1 cur a k : (cur +:+ String a "") +:+ k = cur +:+ String a k.
Proof. induction cur as [|b cur IH]; [done|]. rewrite !append_String. by f_equal. Qed.

Lemma append_length a b : String.length (a +:+ b) = String.length a + String.length b.
Proof. induction a as [|c a IH]; [done|]. rewrite append_String. simpl. by rewrite IH. Qed.

Lemma append_cancel_r s : ∀ a b, a +:+ s = b +:+ s → a = b.
Proof.
  induction a as [|c a IH]; intros [|d b] Heq; try done.
  - apply (f_equal String.length) in Heq. rewrite !append_length in Heq.
    simpl in Heq. lia.
  - apply (f_equal String.length) in Heq. rewrite !append_length in Heq.
    simpl in Heq. lia.
  - rewrite !append_String in Heq. injection Heq as -> Heq. f_equal. by apply IH.
Qed.

Lemma append_cancel_l s a b : s +:+ a = s +:+ b → a = b.
Proof. apply String.app_inj. Qed.

(** [pieces] is the loop [for s != "" { piece, s, _ = strings.Cut(s, c) }]. *)
Lemma pieces_aux_Cut c s : ∀ cur,
  pieces_aux c cur s =
    let '(k, rest, found) := Cut c s in
    if found then (cur +:+ k) :: pieces c rest
    else match cur +:+ k with EmptyString => [] | piece => [piece] end.
Proof.
  induction s as [|a s IH]; intros cur; simpl.
  - rewrite append_empty_r. by destruct cur.
  - destruct (Ascii.eqb a c); simpl.
    + by rewrite append_empty_r.
    + rewrite IH. destruct (Cut c s) as [[k rest] found].
      rewrite append_assoc_1. by destruct found.
Qed.

Lemma Cut_not_found c s k rest : Cut c s = (k, rest, false) → rest = "" ∧ k = s.
Proof.
  revert k rest. induction s as [|a s IH]; intros k rest HC; simpl in HC; [by simplify_eq|].
  destruct (Ascii.eqb a c); [by simplify_eq|].
  destruct (Cut c s) as [[k' rest'] found'] eqn:HC'. simplify_eq.
  destruct (IH _ _ eq_refl) as [-> ->]. done.
Qed.

Lemma pieces_loop c s :
  pieces c s =
    match s with
    | EmptyString => []
    | _ => let '(piece, rest, _) := Cut c s in piece :: pieces c rest
    end.
Proof.
  unfold pieces at 1. rewrite pieces_aux_Cut. destruct s as [|a s]; [done|].
  destruct (Cut c (String a s)) as [[k rest] found] eqn:HC.
  change ("" +:+ k) with k. destruct found; [done|].
  apply Cut_not_found in HC as [-> ->]. done.
Qed.

Lemma sort_Strings_Sorted l : Sorted String.le (sort_Strings l).
Proof. apply Sorted_merge_sort, _. Qed.

Lemma sort_Strings_Permutation l : sort_Strings l ≡ₚ l.
Proof. apply merge_sort_Permutation. Qed.

(** Sorting forgets the order the slice came in. *)
Lemma sort_Strings_perm l1 l2 : l1 ≡ₚ l2 → sort_Strings l1 = sort_Strings l2.
Proof.
  intros Hp. apply (Sorted_unique String.le); auto using sort_Strings_Sorted.
  by rewrite !sort_Strings_Permutation.
Qed.

End GoStringFacts.

(** ** The cache key forgets parameter order and ignored parameters *)

Module CacheKeyFacts.
Import GoString GoStringFacts URL CacheKey.

Lemma values_of_perm k ps1 ps2 : ps1 ≡ₚ ps2 → values_of k ps1 ≡ₚ values_of k ps2.
Proof. intros Hp. unfold values_of. by rewrite Hp. Qed.

Lemma values_of_cons k kv ps :
  values_of k (kv :: ps) = if decide (kv.1 = k) then kv.2 :: values_of k ps else values_of k ps.
Proof. unfold values_of. rewrite filter_cons. by case_decide. Qed.

(** What [parseQuery] leaves under a key: the values of that key, after
    those the map already held. *)
Lemma lookup_foldl_add_value ps : ∀ (m : Values) k,
  foldl add_value m ps !! k =
    match values_of k ps with
    | [] => m !! k
    | vs => Some (default [] (m !! k) ++ vs)
    end.
Proof.
  induction ps as [|[k' v] ps IH]; intros m k; [done|].
  rewrite values_of_cons. simpl. rewrite IH. unfold add_value. simpl.
  case_decide as Hk.
  - subst k'. rewrite lookup_insert_eq. simpl.
    destruct (values_of k ps); by rewrite <-?app_assoc.
  - by rewrite lookup_insert_ne.
Qed.

Lemma lookup_Query_params ps k :
  foldl add_value ∅ ps !! k =
    match values_of k ps with [] => None | vs => Some vs end.
Proof. rewrite lookup_foldl_add_value, lookup_empty. by destruct (values_of k ps). Qed.

Lemma lookup_foldl_Del keys : ∀ (m : Values) k,
  foldl (λ q key, Del key q) m keys !! k =
    if existsb (String.eqb k) keys then None else m !! k.
Proof.
  induction keys as [|key keys IH]; intros m k; [done|].
  simpl. rewrite IH. unfold Del.
  destruct (String.eqb_spec k key) as [->|Hne]; simpl.
  - rewrite lookup_delete_eq. by destruct (existsb _ _).
  - by rewrite lookup_delete_ne.
Qed.

Lemma lookup_key_map ps k :
  key_map ps !! k =
    if existsb (String.eqb k) CacheKeyIgnoreQuery then None
    else match values_of k ps with [] => None | vs => Some (sort_Strings vs) end.
Proof.
  unfold key_map. rewrite lookup_fmap, lookup_foldl_Del.
  destruct (existsb _ _); [done|].
  rewrite lookup_Query_params. by destruct (values_of k ps).
Qed.

Lemma values_of_kept k ps :
  existsb (String.eqb k) CacheKeyIgnoreQuery = false →
  values_of k (filter (λ kv, kept kv) ps) = values_of k ps.
Proof.
  intros Hk. induction ps as [|[k' v] ps IH]; [done|].
  rewrite filter_cons, !values_of_cons. simpl.
  destruct (decide (kept (k', v))) as [Hkept|Hkept].
  - rewrite values_of_cons, IH. done.
  - case_decide as Heq; [|done]. subst k'.
    exfalso. apply Hkept. unfold kept. cbn [fst]. by rewrite Hk.
Qed.

Lemma key_map_kept ps : key_map (filter (λ kv, kept kv) ps) = key_map ps.
Proof.
  apply map_eq. intros k. rewrite !lookup_key_map.
  destruct (existsb _ _) eqn:Hk; [done|]. by rewrite values_of_kept.
Qed.

Lemma key_map_perm ps1 ps2 : ps1 ≡ₚ ps2 → key_map ps1 = key_map ps2.
Proof.
  intros Hp. apply map_eq. intros k. rewrite !lookup_key_map.
  destruct (existsb _ _); [done|].
  pose proof (values_of_perm k _ _ Hp) as Hv.
  destruct (values_of k ps1) as [|v1 vs1] eqn:H1, (values_of k ps2) as [|v2 vs2] eqn:H2.
  - done.
  - by apply Permutation_nil_l in Hv.
  - by apply Permutation_nil_r in Hv.
  - f_equal. by apply sort_Strings_perm.
Qed.

Lemma getCacheKey_key_map path q :
  getCacheKey path q = path +:+ Encode (key_map (params q)).
Proof. done. Qed.

(** Reordering the pieces of a query reorders its parameters. *)
Lemma params_perm q1 q2 :
  pieces "&" q1 ≡ₚ pieces "&" q2 → params q1 ≡ₚ params q2.
Proof. intros Hp. unfold params. by rewrite Hp. Qed.

(** A query written after another, with [&] between them, contributes its
    parameters after those of the first. *)
Lemma params_aux_append q r : ∀ cur,
  omap parse_piece (pieces_aux "&" cur (q +:+ String "&" r)) =
    omap parse_piece (pieces_aux "&" cur q) ++ params r.
Proof.
  induction q as [|a q IH]; intros cur.
  - change ("" +:+ String "&" r) with (String "&" r). unfold params, pieces.
    destruct cur; [done|]. simpl. by destruct (parse_piece _).
  - rewrite append_String. simpl. destruct (Ascii.eqb a "&").
    + simpl. rewrite IH. by destruct (parse_piece cur).
    + apply IH.
Qed.

Lemma params_append q r : params (q +:+ "&" +:+ r) = params q ++ params r.
Proof. apply params_aux_append. Qed.

Lemma append_empty_l s : "" +:+ s = s.
Proof. done. Qed.

Lemma pieces_aux_single c s : ∀ cur,
  contains_byte c s = false → pieces_aux c cur s =
    match cur +:+ s with EmptyString => [] | piece => [piece] end.
Proof.
  induction s as [|a s IH]; intros cur Hc; simpl in *.
  - rewrite append_empty_r. by destruct cur.
  - destruct (Ascii.eqb a c); [done|]. rewrite IH by done. by rewrite append_assoc_1.
Qed.

(** A parameter whose name is ignored, written with any value. *)
Lemma params_ignored k v :
  k ∈ CacheKeyIgnoreQuery → contains_byte "&" v = false →
  filter (λ kv, kept kv) (params (k +:+ "=" +:+ v)) = [].
Proof.
  intros Hk Hv. unfold params, pieces.
  unfold CacheKeyIgnoreQuery in Hk. set_unfold in Hk.
  destruct Hk as [->|[->|[->|[->|[->|[]]]]]];
    (rewrite pieces_aux_single by exact Hv;
     repeat (rewrite append_String || rewrite append_empty_l);
     cbn -[QueryUnescape contains_byte parse_piece]; unfold parse_piece;
     simpl (contains_byte _ _); destruct (contains_byte ";" v); [done|];
     cbn -[QueryUnescape]; simpl (QueryUnescape (String _ _));
     destruct (QueryUnescape v); done).
Qed.

(** The key does not change when a parameter with an ignored name is
    written after the query. *)
Lemma getCacheKey_ignored_param path q k v :
  k ∈ CacheKeyIgnoreQuery → contains_byte "&" v = false →
  getCacheKey path (q +:+ "&" +:+ k +:+ "=" +:+ v) = getCacheKey path q.
Proof.
  intros Hk Hv. rewrite !getCacheKey_key_map. f_equal. f_equal.
  rewrite <-(key_map_kept (params q)), <-(key_map_kept (params (_ +:+ _))).
  by rewrite params_append, filter_app, params_ignored, app_nil_r.
Qed.

(** The key does not change when the pieces of the query are written in
    another order. *)
Lemma getCacheKey_reorder path q1 q2 :
  pieces "&" q1 ≡ₚ pieces "&" q2 → getCacheKey path q1 = getCacheKey path q2.
Proof.
  intros Hp. rewrite !getCacheKey_key_map. f_equal. f_equal.
  by apply key_map_perm, params_perm.
Qed.

(** C9. Two requests with the same path get the same cache key whenever
    their query strings hold the same parameters once the ignored ones
    ([api_key], [tag], [playsessionid], [starttimeticks],
    [x-playback-session-id]) are left out, in whatever order the
    parameters and the repeated values of one parameter are written. *)
Theorem getCacheKey_invariant (path q1 q2 : string) :
  filter (λ kv, kept kv) (params q1) ≡ₚ filter (λ kv, kept kv) (params q2) →
  getCacheKey path q1 = getCacheKey path q2.
Proof.
  intros Hp. rewrite !getCacheKey_key_map. f_equal. f_equal.
  rewrite <-(key_map_kept (params q1)), <-(key_map_kept (params q2)).
  by apply key_map_perm.
Qed.

Lemma getCacheKey_invariant_witness :
  filter (λ kv, kept kv) (params "tag=abc&b=2&a=1&a=0&x=%41+b")
    ≡ₚ filter (λ kv, kept kv) (params "a=0&api_key=k&b=2&x=A%20b&a=1&playsessionid=7")
  ∧ getCacheKey "/emby/Items/54/Images/Primary" "tag=abc&b=2&a=1&a=0&x=%41+b"
    = getCacheKey "/emby/Items/54/Images/Primary" "a=0&api_key=k&b=2&x=A%20b&a=1&playsessionid=7".
Proof.
  assert (Hp : filter (λ kv, kept kv) (params "tag=abc&b=2&a=1&a=0&x=%41+b")
    ≡ₚ filter (λ kv, kept kv) (params "a=0&api_key=k&b=2&x=A%20b&a=1&playsessionid=7")).
  { vm_compute. solve_Permutation. }
  split; [exact Hp|].
  exact (getCacheKey_invariant "/emby/Items/54/Images/Primary" _ _ Hp).
Defined.

End CacheKeyFacts.

(** ** The cache middleware: what is stored, and when *)

Module MiddlewareFacts.
Import GoString Go HTTP Cache Middleware.


Section WithCache.
Context {C : Type} `{!BigCache C}.
Variable Json : CacheData → string.
Variable ParseCacheData : string → option CacheData.

Lemma record_response_run key next ctx c l :
  record_response Json key next ctx (mkPool c l) =
    let w := recording next ctx in
    (mkServed (inner w) false (Some w),
     if decide (cacheable w)
     then mkPool (cache_Set c key (Json (entry_of w))).1
                 (l ++ [OpSet key (Json (entry_of w))])
     else mkPool c l).
Proof.
  unfold record_response, recording, cacheable, StatusOK, StatusMultipleChoices, maxCacheSize.
  set (w := foldl act_warp _ _). cbn zeta.
  destruct (200 <=? Status (inner w))%Z eqn:H1;
    destruct (Status (inner w) <? 300)%Z eqn:H2; simpl;
    try (rewrite decide_False by lia; reflexivity).
  destruct (256 * 1024 <? len (Body w))%Z eqn:H3.
  - rewrite decide_False by lia. reflexivity.
  - rewrite decide_True by lia.
    unfold mbind, State_bind, Set_, mret, State_ret. simpl.
    by destruct (cache_Set c key (Json (entry_of w))).
Qed.

(** A recording writer is installed exactly when the request is a [GET]
    on a matching path that the cache cannot answer. *)
Lemma ImageCache_captured reg next ctx c :
  let key := CacheKey.getCacheKey (Path (request ctx)) (RawQuery (request ctx)) in
  let served := (ImageCache Json ParseCacheData reg next ctx (mkPool c [])).1 in
  (captured served = None ∨ captured served = Some (recording next ctx))
  ∧ (is_Some (captured served) ↔
       Method (request ctx) = "GET" ∧ reg (Path (request ctx)) = true ∧
       (cache_Get c key ≫= ParseCacheData) = None).
Proof.
  unfold ImageCache, MethodGet.
  destruct (String.eqb_spec (Method (request ctx)) "GET") as [HG|HG]; simpl.
  2:{ split; [by left|]. split; [by intros [? [=]]|]. by intros [? _]. }
  destruct (reg (Path (request ctx))) eqn:Hreg; simpl.
  2:{ split; [by left|]. split; [by intros [? [=]]|]. by intros (_ & [=] & _). }
  unfold getCacheBaseFunc, mbind, State_bind, Get. simpl.
  destruct (cache_Get c _) as [d|] eqn:Hget; simpl.
  - destruct (ParseCacheData d) eqn:Hparse; simpl.
    + split; [by left|]. split; [by intros [? [=]]|]. by intros (_ & _ & [=]).
    + rewrite record_response_run. simpl. split; [by right|]. split; [done|by eexists].
  - rewrite record_response_run. simpl. split; [by right|]. split; [done|by eexists].
Qed.



Lemma SubtitleCache_ImageCache reg next ctx :
  SubtitleCache Json ParseCacheData reg next ctx = ImageCache Json ParseCacheData reg next ctx.
Proof. reflexivity. Qed.

End WithCache.


End MiddlewareFacts.

(** ** The Alist client: which answers succeed, and which are cached *)

Module AlistFacts.
Import Go Cache Alist.

Section WithCache.
Context {C : Type} `{!BigCache C}.
Variable Do : Request → option string → time.Time → Exchange * time.Time.
Context `{!Unmarshal AuthLoginData}.
Variable loginCacheKey : string.

Lemma grows_refl T `{!Unmarshal T} (w : World C) : grows T w w.
Proof. exists []. by rewrite app_nil_r. Qed.

Lemma grows_trans T `{!Unmarshal T} (w1 w2 w3 : World C) : grows T w1 w2 → grows T w2 w3 → grows T w1 w3.
Proof.
  intros (l1 & H1 & F1) (l2 & H2 & F2). exists (l1 ++ l2).
  split; [by rewrite H2, H1, app_assoc|by apply Forall_app].
Qed.

Lemma grows_login T `{!Unmarshal T} (w w' : World C) : grows AuthLoginData w w' → grows T w w'.
Proof.
  intros (l & Hl & F). exists l. split; [done|].
  eapply Forall_impl; [exact F|]. intros [k|k d]; simpl; tauto.
Qed.

(** [settle], case by case. *)
Lemma settle_rejects T `{!Unmarshal T} key status data resp (w : World C) :
  unmarshal (T:=T) data = Some resp → Code resp ≠ 200%Z →
  ∃ e, settle (T:=T) key (Response status (Ok data)) w = (Err e, w).
Proof.
  intros Hd Hne. unfold settle. rewrite Hd.
  destruct (Z.eqb_spec (Code resp) HTTP.StatusOK) as [Heq|_]; [done|].
  simpl. by eexists.
Qed.

Lemma settle_accepts T `{!Unmarshal T} key status data resp (w : World C) :
  unmarshal (T:=T) data = Some resp → Code resp = 200%Z →
  settle (T:=T) key (Response status (Ok data)) w =
    match cache w with
    | Some c =>
        if String.eqb key "" then (Ok (Data resp), w)
        else
          let w' := mkWorld (token w) (Some (cache_Set c key data).1) (now w)
                            (calls w ++ [OpSet key data]) in
          if (cache_Set c key data).2
          then (Err (Errorf "doRequest" "缓存响应体失败"), w')
          else (Ok (Data resp), w')
    | None => (Ok (Data resp), w)
    end.
Proof.
  intros Hd Heq. unfold settle. rewrite Hd, Heq. simpl.
  unfold mbind, State_bind, cache_enabled, world_Set.
  destruct (cache w) as [c|] eqn:Hc; simpl.
  - destruct (String.eqb key ""); simpl; [done|].
    rewrite Hc. by destruct (cache_Set c key data) as [c' []].
  - rewrite andb_false_r. done.
Qed.

Lemma settle_grows T `{!Unmarshal T} key ex (w : World C) :
  grows T w (settle (T:=T) key ex w).2.
Proof.
  destruct ex as [e|status [data|e]]; try apply grows_refl.
  destruct (unmarshal (T:=T) data) as [resp|] eqn:Hd.
  2:{ unfold settle. rewrite Hd. apply grows_refl. }
  destruct (decide (Code resp = 200%Z)) as [Heq|Hne].
  - rewrite (settle_accepts _ _ _ _ _ _ Hd Heq).
    destruct (cache w) as [c|]; [|apply grows_refl].
    destruct (String.eqb key ""); [apply grows_refl|].
    assert (grows T w (mkWorld (token w) (Some (cache_Set c key data).1) (now w)
                               (calls w ++ [OpSet key data]))).
    { exists [OpSet key data]. split; [done|].
      constructor; [|constructor]. left. by exists resp. }
    by destruct (cache_Set c key data).2.
  - destruct (settle_rejects _ key status _ _ w Hd Hne) as [e ->]. apply grows_refl.
Qed.

Lemma settle_Ok T `{!Unmarshal T} key ex (w : World C) d :
  (settle (T:=T) key ex w).1 = Ok d →
  ∃ status data resp, ex = Response status (Ok data) ∧
    unmarshal (T:=T) data = Some resp ∧ Code resp = 200%Z ∧ Data resp = d.
Proof.
  destruct ex as [e|status [data|e]]; try discriminate.
  destruct (unmarshal (T:=T) data) as [resp|] eqn:Hd.
  2:{ unfold settle. by rewrite Hd. }
  destruct (decide (Code resp = 200%Z)) as [Heq|Hne].
  - rewrite (settle_accepts _ _ _ _ _ _ Hd Heq). intros Hok.
    exists status, data, resp. repeat split; try done.
    destruct (cache w) as [c|]; simpl in Hok; [|congruence].
    destruct (String.eqb key ""); simpl in Hok; [congruence|].
    destruct (cache_Set c key data).2; simpl in Hok; congruence.
  - destruct (settle_rejects _ key status _ _ w Hd Hne) as [e ->]. done.
Qed.

Lemma lookup_grows T `{!Unmarshal T} key (w : World C) :
  grows T w (lookup (T:=T) key w).2.
Proof.
  unfold lookup, mbind, State_bind. simpl.
  destruct (cache_enabled key w); [|apply grows_refl].
  unfold world_Get. destruct (cache w); [|apply grows_refl]. simpl.
  exists [OpGet key]. split; [done|]. by repeat constructor.
Qed.

Lemma lookup_Some T `{!Unmarshal T} key (w : World C) resp :
  (lookup (T:=T) key w).1 = Some resp →
  key ≠ "" ∧ ∃ c data, cache w = Some c ∧ cache_Get c key = Some data ∧
                       unmarshal (T:=T) data = Some resp.
Proof.
  unfold lookup, mbind, State_bind, cache_enabled, world_Get. simpl.
  destruct (String.eqb_spec key ""); simpl; [done|].
  destruct (cache w) as [c|] eqn:Hc; simpl; [|done]. rewrite Hc.
  destruct (cache_Get c key) as [data|] eqn:Hg; simpl; [|done].
  intros Hd. split; [done|]. by exists c, data.
Qed.

Lemma send_calls r auth (w : World C) : calls (send Do r auth w).2 = calls w.
Proof. unfold send. by destruct (Do r auth (now w)). Qed.

Lemma send_grows T `{!Unmarshal T} r auth (w : World C) : grows T w (send Do r auth w).2.
Proof. exists []. by rewrite send_calls, app_nil_r. Qed.

Lemma roundtrip_sound T `{!Unmarshal T} r auth (w w2 : World C) :
  grows T w w2 →
  grows T w (roundtrip (T:=T) Do r auth w2).2
  ∧ ∀ d, (roundtrip (T:=T) Do r auth w2).1 = Ok d → vouched T r w d.
Proof.
  intros H2. unfold roundtrip, mbind, State_bind.
  pose proof (send_grows T r auth w2) as Hs.
  destruct (send Do r auth w2) as [ex w3]; simpl in Hs.
  split.
  - eapply grows_trans; [exact H2|]. eapply grows_trans; [exact Hs|]. apply settle_grows.
  - intros d Hok. apply settle_Ok in Hok as (status & data & resp & _ & Hd & Hc & <-).
    exists resp. split; [done|]. right. by exists data.
Qed.

Lemma doRequest_with_sound T `{!Unmarshal T} getToken r (w : World C) :
  (∀ w0, grows T w0 (getToken w0).2) →
  grows T w (doRequest_with (T:=T) Do getToken r w).2
  ∧ ∀ d, (doRequest_with (T:=T) Do getToken r w).1 = Ok d → vouched T r w d.
Proof.
  intros Hget. unfold doRequest_with, mbind, State_bind.
  pose proof (lookup_grows T (GetCacheKey r) w) as Hlg.
  pose proof (lookup_Some T (GetCacheKey r) w) as Hls.
  destruct (lookup (T:=T) (GetCacheKey r) w) as [[resp|] w1]; simpl in *.
  { split; [done|]. intros d [= <-]. exists resp. split; [done|]. left.
    destruct (Hls resp eq_refl) as (_ & c & data & ? & ? & ?). by exists c, data. }
  destruct (NeedAuth r).
  - specialize (Hget w1). destruct (getToken w1) as [[tk|e] w2]; simpl in *.
    + apply roundtrip_sound. by eapply grows_trans.
    + split; [by eapply grows_trans|done].
  - by apply roundtrip_sound.
Qed.

Lemma authLogin_grows (w : World C) :
  grows AuthLoginData w (authLogin Do loginCacheKey w).2.
Proof.
  unfold authLogin, mbind, State_bind.
  match goal with
  | |- context [doRequest_with _ ?g ?r w] =>
      destruct (doRequest_with_sound AuthLoginData g r w) as [Hg _]
  end.
  { intros w0. apply grows_refl. }
  destruct (doRequest_with _ _ _ w) as [[d|e] w1]; done.
Qed.

Lemma getToken_grows T `{!Unmarshal T} (w : World C) :
  grows T w (getToken Do loginCacheKey w).2.
Proof.
  unfold getToken. destruct (token_valid _ _); [apply grows_refl|].
  unfold refresh, mbind, State_bind. apply grows_login.
  pose proof (authLogin_grows w) as Hl.
  destruct (authLogin _ _ w) as [[d|e] w1]; simpl in *; [|done].
  destruct Hl as (l & Hl & F). by exists l.
Qed.

(** A refresh by one goroutine: the token of the login is installed with
    the expiry [now + tokenDuration], read when the login has returned. *)
Lemma getToken_refresh (w w1 : World C) d :
  token_valid (token w) (now w) = false →
  authLogin Do loginCacheKey w = (Ok d, w1) →
  getToken Do loginCacheKey w
    = (Ok (Token d),
       mkWorld (mkToken (Token d) (now w1 + (2 * 24 * time.Hour - 5 * time.Minute))%Z)
               (cache w1) (now w1) (calls w1)).
Proof.
  intros Hv Hl. unfold getToken. rewrite Hv.
  unfold refresh, mbind, State_bind. rewrite Hl. reflexivity.
Qed.

Lemma getToken_valid (w : World C) :
  token_valid (token w) (now w) = true →
  getToken Do loginCacheKey w = (Ok (value (token w)), w).
Proof. intros Hv. unfold getToken. by rewrite Hv. Qed.

(** *** One goroutine: the function is a run of the goroutine steps *)

(** The clock does not run back while the server answers. *)
Hypothesis Do_takes_time : ∀ r auth t, (t ≤ (Do r auth t).2)%Z.

Lemma later_refl (w : World C) : later w w.
Proof. split; [done|lia]. Qed.

Lemma later_trans (w1 w2 w3 : World C) : later w1 w2 → later w2 w3 → later w1 w3.
Proof. intros [H1 H2] [H3 H4]. split; [congruence|lia]. Qed.

Lemma lookup_later T `{!Unmarshal T} key (w : World C) : later w (lookup (T:=T) key w).2.
Proof.
  unfold lookup, mbind, State_bind. simpl.
  destruct (cache_enabled key w); [|apply later_refl].
  unfold world_Get. destruct (cache w); simpl; split; simpl; done || lia.
Qed.

Lemma send_later r auth (w : World C) : later w (send Do r auth w).2.
Proof.
  unfold send. pose proof (Do_takes_time r auth (now w)) as Ht.
  destruct (Do r auth (now w)) as [ex t]. by split.
Qed.

Lemma settle_later T `{!Unmarshal T} key ex (w : World C) : later w (settle (T:=T) key ex w).2.
Proof.
  destruct ex as [e|status [data|e]]; try apply later_refl.
  unfold settle. destruct (unmarshal data) as [resp|]; [|apply later_refl].
  destruct (negb _); [apply later_refl|].
  unfold mbind, State_bind. simpl.
  destruct (cache_enabled key w); [|apply later_refl].
  unfold world_Set. destruct (cache w) as [c|]; [|apply later_refl].
  destruct (cache_Set c key data) as [c' []]; split; simpl; done || lia.
Qed.

Lemma authLogin_later (w : World C) : later w (authLogin Do loginCacheKey w).2.
Proof.
  unfold authLogin, doRequest_with, mbind, State_bind.
  pose proof (lookup_later AuthLoginData (GetCacheKey (AuthLoginRequest loginCacheKey)) w) as H1.
  destruct (lookup _ w) as [[resp|] w1]; simpl in *; [done|].
  unfold roundtrip, mbind, State_bind.
  pose proof (send_later (AuthLoginRequest loginCacheKey) None w1) as H2.
  destruct (send _ _ _ w1) as [ex w2]; simpl in *.
  pose proof (settle_later AuthLoginData loginCacheKey ex w2) as H3.
  destruct (settle _ ex w2) as [[d|e] w3]; simpl in *;
    eapply later_trans; eauto using later_trans.
Qed.

(** What [getToken] does on its own is what a single goroutine does by the
    steps: the same result, the same token afterwards. *)
Lemma getToken_is_a_run (w : World C) :
  let run := getToken Do loginCacheKey w in
  reachable (token w) (now w) 1
    (mkConfig (mkShared (token run.2) 0 false (now run.2)) [Returned run.1]).
Proof.
  cbn zeta. unfold reachable, initial. simpl.
  eapply rtc_l; [apply (step_RLock _ 0); reflexivity|]. cbn.
  unfold getToken. destruct (token_valid (token w) (now w)) eqn:Hv.
  - eapply rtc_l; [apply (step_hit _ 0); [reflexivity|exact Hv]|]. cbn. apply rtc_refl.
  - eapply rtc_l; [apply (step_miss _ 0); [reflexivity|exact Hv]|]. cbn.
    unfold refresh, mbind, State_bind.
    destruct (authLogin_later w) as [Htok Hnow].
    destruct (authLogin Do loginCacheKey w) as [loginData w1]; simpl in *.
    eapply rtc_l; [apply (step_tick _ (now w1 - now w)); lia|]. cbn.
    replace (now w + (now w1 - now w))%Z with (now w1) by lia.
    eapply rtc_l; [apply (step_login _ 0 loginData); reflexivity|]. cbn.
    destruct loginData as [d|e]; simpl.
    + eapply rtc_l; [apply (step_Lock _ 0 (Token d)); reflexivity|]. cbn.
      eapply rtc_l; [apply (step_install _ 0 (Token d)); reflexivity|]. cbn.
      apply rtc_refl.
    + rewrite Htok. apply rtc_refl.
Qed.

(** C5, as the code has it.  For every request issued through the
    client: an answer whose [code] is not 200 is surfaced as an error and
    leaves the cache untouched; an answer [doRequest] returns was read
    from the cache or came with [code] 200; an answer with [code] 200 is
    written to the cache under the request's key when the client has a
    cache, the key is not empty and [Set] accepts it; and whatever
    [doRequest] writes to the cache, the login it may run included, is
    the body of an answer with [code] 200. *)
Theorem doRequest_code_200 T `{!Unmarshal T} r (w : World C) :
  let run := doRequest (T:=T) Do loginCacheKey r w in
  (∀ status data resp (w0 : World C),
     unmarshal (T:=T) data = Some resp → Code resp ≠ 200%Z →
     ∃ e, settle (T:=T) (GetCacheKey r) (Response status (Ok data)) w0 = (Err e, w0))
  ∧ (∀ d, run.1 = Ok d → vouched T r w d)
  ∧ (∀ status data resp (w0 : World C) c,
       unmarshal (T:=T) data = Some resp → Code resp = 200%Z →
       cache w0 = Some c → GetCacheKey r ≠ "" →
       (cache_Set c (GetCacheKey r) data).2 = false →
       settle (T:=T) (GetCacheKey r) (Response status (Ok data)) w0 =
         (Ok (Data resp),
          mkWorld (token w0) (Some (cache_Set c (GetCacheKey r) data).1) (now w0)
                  (calls w0 ++ [OpSet (GetCacheKey r) data])))
  ∧ (∃ l, calls run.2 = calls w ++ l ∧
          ∀ k body, OpSet k body ∈ l → code_200 T body ∨ code_200 AuthLoginData body).
Proof.
  cbn zeta. split; [|split; [|split]].
  - intros status data resp w0 Hd Hne. by eapply settle_rejects.
  - intros d Hok. unfold doRequest in Hok.
    eapply doRequest_with_sound; [|exact Hok].
    intros w0. apply getToken_grows.
  - intros status data resp w0 c Hd Hc Hcache Hkey Hset.
    rewrite (settle_accepts _ _ _ _ _ _ Hd Hc), Hcache.
    destruct (String.eqb_spec (GetCacheKey r) ""); [done|]. cbn zeta.
    by rewrite Hset.
  - destruct (doRequest_with_sound T (getToken Do loginCacheKey) r w) as [(l & Hl & F) _].
    { intros w0. apply getToken_grows. }
    exists l. split; [exact Hl|].
    intros k body Hin. rewrite Forall_forall in F. exact (F _ Hin).
Qed.

End WithCache.

(** The claim as the specification words it (an answer succeeds and is
    cached exactly when its [code] is zero) fails both ways: an answer with
    [code] 200 is returned and cached, an answer with [code] 0 is an error
    and is not cached. *)
Lemma doRequest_code_zero_counterexample :
  let body200 := JSON.quoted "{'code':200,'message':'success','data':{'raw_url':'https://oss/x','sign':'s','size':5000000000}}" in
  let body0 := JSON.quoted "{'code':0,'message':'success','data':{'raw_url':'https://oss/x','sign':'s','size':5000000000}}" in
  let r := AlistJSON.FsGetRequest "/movie.mkv" in
  let run200 := doRequest (T:=AlistJSON.FsGetData) (AlistJSON.answers body200) "" r
                          AlistJSON.fresh_world in
  let run0 := doRequest (T:=AlistJSON.FsGetData) (AlistJSON.answers body0) "" r
                        AlistJSON.fresh_world in
  (Code <$> unmarshal (T:=AlistJSON.FsGetData) body200) = Some 200%Z
  ∧ run200.1 = Ok (AlistJSON.mkFsGet "https://oss/x" "s" 5000000000)
  ∧ calls run200.2 = [OpGet "fs_get:/movie.mkv"; OpSet "fs_get:/movie.mkv" body200]
  ∧ (Code <$> unmarshal (T:=AlistJSON.FsGetData) body0) = Some 0%Z
  ∧ is_ok run0.1 = false
  ∧ calls run0.2 = [OpGet "fs_get:/movie.mkv"].
Proof. vm_compute. repeat split. Qed.

(** An answer with [code] 500 is an error and leaves the client as it was;
    the answer with [code] 200 is returned and written to the cache. *)
Lemma doRequest_code_200_witness :
  let r := AlistJSON.FsGetRequest "/movie.mkv" in
  let failure := JSON.quoted "{'code':500,'message':'storage not found','data':null}" in
  let success := JSON.quoted "{'code':200,'message':'success','data':{'raw_url':'https://oss/x','sign':'s','size':5000000000}}" in
  (∃ e, settle (T:=AlistJSON.FsGetData) (GetCacheKey r) (Response 200 (Ok failure))
          AlistJSON.fresh_world = (Err e, AlistJSON.fresh_world))
  ∧ (settle (T:=AlistJSON.FsGetData) (GetCacheKey r) (Response 200 (Ok success))
       AlistJSON.fresh_world).1 = Ok (AlistJSON.mkFsGet "https://oss/x" "s" 5000000000).
Proof.
  cbn zeta.
  destruct (doRequest_code_200 (AlistJSON.answers "") "" AlistJSON.FsGetData
              (AlistJSON.FsGetRequest "/movie.mkv") AlistJSON.fresh_world)
    as (Hreject & _ & Haccept & _).
  split.
  - eapply Hreject; [vm_compute; reflexivity|vm_compute; discriminate].
  - rewrite (Haccept 200%Z _ (mkResponse 200 "success"
                                 (AlistJSON.mkFsGet "https://oss/x" "s" 5000000000))
               AlistJSON.fresh_world (mkMapCache ∅ 40960));
      [reflexivity|vm_compute; reflexivity|reflexivity|reflexivity|discriminate
      |vm_compute; reflexivity].
Defined.

End AlistFacts.

(** ** [getToken] under concurrency *)

Module TokenFacts.
Import Go Cache Alist.

Lemma tokenDuration_value : tokenDuration = (172500 * time.Second)%Z.
Proof. reflexivity. Qed.

Lemma count_insert f l : ∀ i p q,
  l !! i = Some p →
  count f (<[i := q]> l) + (if f p then 1 else 0) = count f l + (if f q then 1 else 0).
Proof.
  induction l as [|a l IH]; intros [|i] p q Hl; simplify_eq/=.
  - destruct (f p), (f q); lia.
  - specialize (IH _ _ q Hl). destruct (f a); lia.
Qed.

Lemma count_replicate f n p : f p = false → count f (replicate n p) = 0.
Proof. intros Hp. induction n as [|n IH]; simpl; [done|]. by rewrite Hp. Qed.

Lemma lock_inv_initial t start n : lock_inv (initial t start n).
Proof.
  split; simpl; [|by rewrite count_replicate|done].
  by rewrite count_replicate.
Qed.

Lemma lock_inv_step cfg cfg' : step cfg cfg' → lock_inv cfg → lock_inv cfg'.
Proof.
  intros Hstep [Hr Hw Hx].
  destruct Hstep as [cfg i Hat Hwf|cfg i Hat Hv|cfg i Hat Hv|cfg i ld Hat
                    |cfg i fresh Hat Hwf Hr0|cfg i fresh Hat|cfg d Hd];
    unfold at_pc in *; simpl in *.
  - pose proof (count_insert reading _ _ _ Checking Hat).
    pose proof (count_insert installing _ _ _ Checking Hat).
    rewrite Hwf in *. simpl in *. split; simpl; [lia|lia|done].
  - pose proof (count_insert reading _ _ _ (Returned (Ok (value (tok (shared cfg))))) Hat).
    pose proof (count_insert installing _ _ _ (Returned (Ok (value (tok (shared cfg))))) Hat).
    simpl in *. split; simpl; [lia|lia|]. intros Hwt. specialize (Hx Hwt). lia.
  - pose proof (count_insert reading _ _ _ LoggingIn Hat).
    pose proof (count_insert installing _ _ _ LoggingIn Hat).
    simpl in *. split; simpl; [lia|lia|done].
  - set (q := match ld with Ok d => Upgrading (Token d) | Err e => Returned (Err e) end).
    assert (reading q = false ∧ installing q = false) as [Hq1 Hq2] by (by destruct ld).
    pose proof (count_insert reading _ _ _ q Hat).
    pose proof (count_insert installing _ _ _ q Hat).
    rewrite Hq1, Hq2 in *. simpl in *.
    split; simpl; [lia|lia|]. intros Hwt. specialize (Hx Hwt). lia.
  - pose proof (count_insert reading _ _ _ (Installing fresh) Hat).
    pose proof (count_insert installing _ _ _ (Installing fresh) Hat).
    rewrite Hwf in *. simpl in *. split; simpl; [lia|lia|done].
  - pose proof (count_insert reading _ _ _ (Returned (Ok fresh)) Hat).
    pose proof (count_insert installing _ _ _ (Returned (Ok fresh)) Hat).
    simpl in *. destruct (writer (shared cfg)); split; simpl; try lia; done.
  - split; done.
Qed.

Lemma lock_inv_reachable t start n cfg : reachable t start n cfg → lock_inv cfg.
Proof.
  unfold reachable. revert cfg. apply (rtc_ind_r (R:=step) lock_inv).
  - apply lock_inv_initial.
  - intros c1 c2 _ Hs Hi. by eapply lock_inv_step.
Qed.

(** A goroutine at [Installing] means the write lock is held. *)
Lemma installing_writer cfg i fresh :
  lock_inv cfg → at_pc cfg i (Installing fresh) → writer (shared cfg) = true.
Proof.
  intros [_ Hw _] Hat. unfold at_pc in Hat.
  pose proof (count_insert installing _ _ _ Entering Hat) as Hc. simpl in Hc.
  destruct (writer (shared cfg)); [done|lia].
Qed.

Lemma both_logging_in_reachable : reachable no_token (time.Unix 0) 2 both_logging_in.
Proof.
  unfold reachable, initial, both_logging_in. cbn.
  take ltac:(apply (step_RLock _ 0); reflexivity).
  take ltac:(apply (step_RLock _ 1); reflexivity).
  take ltac:(apply (step_miss _ 0); reflexivity).
  take ltac:(apply (step_miss _ 1); reflexivity).
  apply rtc_refl.
Qed.

Lemma second_installing_reachable : reachable no_token (time.Unix 0) 2 second_installing.
Proof.
  eapply rtc_trans; [apply both_logging_in_reachable|].
  unfold both_logging_in, second_installing.
  take ltac:(apply (step_login _ 0 (login_of "A")); reflexivity).
  take ltac:(apply (step_login _ 1 (login_of "B")); reflexivity).
  take ltac:(apply (step_Lock _ 0 "A"); reflexivity).
  take ltac:(apply (step_install _ 0 "A"); reflexivity).
  take ltac:(apply (step_Lock _ 1 "B"); reflexivity).
  apply rtc_refl.
Qed.

(** The claim as the specification words it fails on the code: two
    refreshes of one client's token are in flight at once, and a goroutine
    that comes to the write lock after another has installed a usable
    token installs its own without looking. *)
Lemma getToken_refreshes_overlap :
  (∃ cfg, reachable no_token (time.Unix 0) 2 cfg ∧ in_flight cfg = 2)
  ∧ (∃ cfg cfg', reachable no_token (time.Unix 0) 2 cfg ∧ step cfg cfg' ∧
       token_valid (tok (shared cfg)) (clock (shared cfg)) = true ∧
       tok (shared cfg') ≠ tok (shared cfg)).
Proof.
  split.
  - exists both_logging_in. split; [apply both_logging_in_reachable|reflexivity].
  - exists second_installing. eexists.
    split; [apply second_installing_reachable|].
    split; [apply (step_install _ 1 "B"); reflexivity|].
    split; [reflexivity|]. cbn. discriminate.
Qed.

(** C2, as the code has it.  [getToken] logs in while it holds the read
    lock and installs the token under the write lock without a second
    look; what the lock serialises is the installation.  In every state
    [n] goroutines can reach: at most one goroutine is installing, and
    while one is, the write lock is held and no goroutine is between
    [RLock] and [RUnlock]; the token changes only under the write lock,
    and then to a fresh token whose expiry is the clock's reading plus two
    days less five minutes. *)
Theorem getToken_install_serialised t start n cfg :
  reachable t start n cfg →
  count installing (goroutines cfg) ≤ 1
  ∧ (∀ i fresh, at_pc cfg i (Installing fresh) →
       writer (shared cfg) = true ∧ count reading (goroutines cfg) = 0)
  ∧ (∀ cfg', step cfg cfg' → tok (shared cfg') ≠ tok (shared cfg) →
       writer (shared cfg) = true ∧
       ∃ fresh, tok (shared cfg') =
         mkToken fresh (clock (shared cfg) + (2 * 24 * time.Hour - 5 * time.Minute))%Z).
Proof.
  intros Hr. pose proof (lock_inv_reachable _ _ _ _ Hr) as Hinv.
  destruct Hinv as [Hrd Hw Hx]. split; [|split].
  - rewrite Hw. destruct (writer (shared cfg)); lia.
  - intros i fresh Hat.
    assert (writer (shared cfg) = true) as Hwt
      by (eapply installing_writer; [by split|exact Hat]).
    split; [done|]. rewrite <-Hrd. by apply Hx.
  - intros cfg' Hs Hne.
    destruct Hs as [cfg i Hat Hwf|cfg i Hat Hv|cfg i Hat Hv|cfg i ld Hat
                   |cfg i fresh Hat Hwf Hr0|cfg i fresh Hat|cfg d Hd];
      simpl in *; try done.
    split; [eapply installing_writer; [by split|exact Hat]|].
    by exists fresh.
Qed.

Lemma getToken_install_serialised_witness :
  reachable no_token (time.Unix 0) 2 second_installing
  ∧ count installing (goroutines second_installing) ≤ 1
  ∧ (∀ i fresh, at_pc second_installing i (Installing fresh) →
       writer (shared second_installing) = true ∧
       count reading (goroutines second_installing) = 0)
  ∧ (∀ cfg', step second_installing cfg' →
       tok (shared cfg') ≠ tok (shared second_installing) →
       writer (shared second_installing) = true ∧
       ∃ fresh, tok (shared cfg') =
         mkToken fresh (clock (shared second_installing)
                        + (2 * 24 * time.Hour - 5 * time.Minute))%Z).
Proof.
  split; [apply second_installing_reachable|].
  exact (getToken_install_serialised no_token (time.Unix 0) 2 second_installing
           second_installing_reachable).
Defined.

End TokenFacts.

(** ** The HTTP STRM resolver when the fetch fails *)

Module StrmFacts.
Import GoString Go Cache Strm.

Section HTTPStrm.
Context {C : Type} `{!BigCache C}.
Variable getFinalURL : string → string → string * option error.

Lemma httpStrmHandler_disabled content ua (cache : option C) :
  httpStrmHandler getFinalURL false content ua cache = (content, cache).
Proof. reflexivity. Qed.

Lemma httpStrmHandler_hit content ua (c : C) cachedURL :
  cache_Get c content = Some cachedURL →
  httpStrmHandler getFinalURL true content ua (Some c) = (cachedURL, Some c).
Proof. intros Hg. unfold httpStrmHandler. simpl. by rewrite Hg. Qed.

(** C3, on the code.  When the fetch of the final URL fails, the resolver
    returns the string [getFinalURL] returned beside its error, and records
    that string in its cache under the content; it returns the content only
    if that string is the content. *)
Theorem httpStrmHandler_fetch_failure content ua (cache : option C) u e :
  getFinalURL content ua = (u, Some e) →
  cache ≫= (λ c, cache_Get c content) = None →
  httpStrmHandler getFinalURL true content ua cache
    = (u, (λ c, (cache_Set c content u).1) <$> cache)
  ∧ ((httpStrmHandler getFinalURL true content ua cache).1 = content ↔ u = content).
Proof.
  intros Hf Hmiss. unfold httpStrmHandler. rewrite Hmiss, Hf. done.
Qed.

End HTTPStrm.

Lemma httpStrmHandler_fetch_failure_witness :
  let content := "http://origin.example/vid.mp4" in
  let run := httpStrmHandler StrmExamples.unreachable_origin true content "ua"
               StrmExamples.empty_cache in
  run.1 = "" ∧ run.1 ≠ content
  ∧ (run.2 ≫= λ c, cache_Get c content) = Some "".
Proof.
  cbn zeta.
  assert (Hmiss : StrmExamples.empty_cache
                    ≫= (λ c, cache_Get c "http://origin.example/vid.mp4") = None)
    by (vm_compute; reflexivity).
  destruct (httpStrmHandler_fetch_failure StrmExamples.unreachable_origin
              "http://origin.example/vid.mp4" "ua" StrmExamples.empty_cache ""
              (Errorf "getFinalURL" "request failed") eq_refl Hmiss) as [Hrun _].
  rewrite Hrun. split; [reflexivity|]. split; [discriminate|]. vm_compute. reflexivity.
Defined.

End StrmFacts.

(** ** The FNTV rewriter: the [expire_at] it writes *)

Module FNTVFacts.
Import GoString Go HTTP JsonChain Handler Strm FNTV.

(** A variant's expiry is the instant its URL's [x-oss-expires] names. *)
Lemma variant_of_expireAt url_Parse task r :
  variant_of url_Parse task = Some r →
  ∃ u ts, url_Parse (Url task) = Some u
    ∧ strconv.ParseInt (Values_Get (URL.Query (RawQuery u)) "x-oss-expires") = Some ts
    ∧ expireAt r = time.Unix ts ∧ t_url r = Url task.
Proof.
  unfold variant_of. destruct (String.eqb (Url task) ""); [done|].
  destruct (url_Parse (Url task)) as [u|]; [|done]. simpl.
  destruct (String.eqb _ ""); [done|].
  destruct (strconv.ParseInt _) as [ts|] eqn:Hts; [|done]. simpl.
  intros [= <-]. by exists u, ts.
Qed.

Lemma Since_future (now exp : Z) :
  (now + time.Second ≤ exp)%Z → (time.whole_Seconds (time.Since now exp) ≤ -1)%Z.
Proof.
  intros Hle. unfold time.whole_Seconds, time.Since, time.Sub, time.Second,
    time.Nanosecond, time.minDuration, time.maxDuration in *.
  assert (Hq : ∀ d, (d ≤ -1000000000)%Z → (d ÷ (1000000000 * 1) ≤ -1)%Z).
  { intros d Hd. replace d with (- (- d))%Z by lia. rewrite Z.quot_opp_l by lia.
    rewrite Z.quot_div_nonneg by lia.
    assert (1 ≤ - d / (1000000000 * 1))%Z; [|lia].
    apply Z.div_le_lower_bound; lia. }
  destruct (now - exp <? - 2 ^ 63)%Z eqn:H1; [apply Hq; lia|].
  destruct (2 ^ 63 - 1 <? now - exp)%Z eqn:H2; [lia|]. apply Hq. lia.
Qed.

Lemma Since_whole_seconds (now k : Z) :
  (0 ≤ k ≤ 9223372036)%Z →
  time.whole_Seconds (time.Since now (now + k * time.Second)%Z) = (- k)%Z.
Proof.
  intros Hk. unfold time.whole_Seconds, time.Since, time.Sub, time.Second,
    time.Nanosecond, time.minDuration, time.maxDuration.
  replace (now - (now + k * (1000000000 * 1)))%Z with (- k * 1000000000)%Z by lia.
  destruct (- k * 1000000000 <? - 2 ^ 63)%Z eqn:H1; [lia|].
  destruct (2 ^ 63 - 1 <? - k * 1000000000)%Z eqn:H2; [lia|].
  rewrite Z.mul_1_r. apply Z.quot_mul. lia.
Qed.

Section Variants.
Variable now : nat → time.Time.

Lemma set_variants_keeps rs : ∀ i jc e,
  e ∈ edits jc → e ∈ edits (set_variants now i rs jc).
Proof.
  induction rs as [|r rs IH]; intros i jc e He; [done|].
  simpl. apply IH. unfold Set_. simpl.
  rewrite !elem_of_app. tauto.
Qed.

(** The [expire_at] written for the variant at position [n]. *)
Lemma set_variants_expire_at rs : ∀ i jc n r,
  rs !! n = Some r →
  (("data.direct_link_qualities." +:+ Itoa (i + n + 1) +:+ ".") +:+ "expire_at",
   JInt (time.whole_Seconds (time.Since (now (i + n)) (expireAt r))))
    ∈ edits (set_variants now i rs jc).
Proof.
  induction rs as [|r0 rs IH]; intros i jc [|n] r Hl; simplify_eq/=.
  - apply set_variants_keeps. unfold Set_. simpl.
    rewrite Nat.add_0_r, !elem_of_app. right. apply list_elem_of_here.
  - replace (i + S n) with (S i + n) by lia. by apply IH.
Qed.
End Variants.

Section Handler.
Variable gjson_Get : string → string → gjson_Result.
Variable sjson_Set : string → string → jvalue → result string.
Variable recgonizeStrmFileType : string → StrmFileType * option string.
Variable httpStrmHandler : string → string → string.
Variable alistStrmHandler : string → string → bool → result alistStrmResult.
Variable now : nat → time.Time.

(** C4, on the code.  For an Alist STRM, the rewriter writes for the
    variant at position [n] (index [n + 1] of [direct_link_qualities]) an
    [expire_at] that is the whole seconds since the variant's expiry:
    minus the seconds that remain when the expiry lies ahead, and so
    negative, not positive, from one second ahead on. *)
Theorem ModifyStream_expire_at rw data alistAddr res n resource :
  up_body rw = Ok data →
  Type_ (gjson_Get data "code") = TNumber → Int_ (gjson_Get data "code") = 0%Z →
  Type_ (gjson_Get data "data.file_stream.path") = TString →
  recgonizeStrmFileType (String_ (gjson_Get data "data.file_stream.path"))
    = (AlistStrm, Some alistAddr) →
  Type_ (gjson_Get data "data.direct_link_qualities.0.url") = TString →
  alistStrmHandler (String_ (gjson_Get data "data.direct_link_qualities.0.url")) alistAddr true
    = Ok res →
  transcodeResources res !! n = Some resource →
  let written := time.whole_Seconds (time.Since (now n) (expireAt resource)) in
  (∃ jc, ModifyStream gjson_Get sjson_Set recgonizeStrmFileType httpStrmHandler
           alistStrmHandler now rw = ship sjson_Set rw jc
         ∧ (("data.direct_link_qualities." +:+ Itoa (n + 1) +:+ ".") +:+ "expire_at",
            JInt written) ∈ edits jc)
  ∧ ((now n + time.Second ≤ expireAt resource)%Z → (written ≤ -1)%Z)
  ∧ (∀ k, (0 ≤ k ≤ 9223372036)%Z → expireAt resource = (now n + k * time.Second)%Z →
          written = (- k)%Z).
Proof.
  intros Hbody Hct Hc0 Hpt Hrec Hut Hres Hn. cbn zeta. split; [|split].
  - eexists. split.
    + unfold ModifyStream. rewrite Hbody. unfold Get. simpl.
      rewrite Hct, Hc0, Hpt, Hrec, Hut, Hres. simpl. reflexivity.
    + apply (set_variants_expire_at now _ 0 _ n resource Hn).
  - apply Since_future.
  - intros k Hk ->. by apply Since_whole_seconds.
Qed.

End Handler.

Lemma ModifyStream_expire_at_witness :
  let rw := mkUpstream ∅ (Ok StrmExamples.stream_body) "ua" in
  ∃ jc, ModifyStream Examples.get_path Examples.no_sjson Examples.by_directory
          (λ content _, content) StrmExamples.resolve StrmExamples.an_hour_before rw
        = ship Examples.no_sjson rw jc
      ∧ ("data.direct_link_qualities.1.expire_at", JInt (-3600)) ∈ edits jc.
Proof.
  cbn zeta.
  destruct (ModifyStream_expire_at Examples.get_path Examples.no_sjson Examples.by_directory
              (λ content _, content) StrmExamples.resolve StrmExamples.an_hour_before
              (mkUpstream ∅ (Ok StrmExamples.stream_body) "ua") StrmExamples.stream_body
              "http://alist:5244"
              (mkAlistResult "https://oss/x" 5000000000
                 [mkTranscode "https://oss.example/v/fhd.m3u8?x-oss-expires=1893456000&sig=abc"
                    true (time.Unix 1893456000) (mkResolution 1080 1080 "FHD")])
              0 (mkTranscode "https://oss.example/v/fhd.m3u8?x-oss-expires=1893456000&sig=abc"
                    true (time.Unix 1893456000) (mkResolution 1080 1080 "FHD")))
    as [(jc & Hrun & Hin) _]; try (vm_compute; reflexivity).
  exists jc. split; [exact Hrun|]. exact Hin.
Defined.

End FNTVFacts.

(** ** The Emby and Jellyfin handlers *)

Module MediaServerFacts.
Import GoString GoStringFacts Go HTTP JsonChain Handler Strm MediaServer.

Section Facts.
Context `{!Deps}.

(** *** Sources of no STRM kind are left alone *)

Lemma Emby_modify_source_untouched index ms jc :
  untouched without_prefix ms → Emby.modify_source index ms jc = Returns jc.
Proof.
  intros (id & Hid & Hq). unfold Emby.modify_source. rewrite Hid. simpl.
  fold (without_prefix id).
  destruct (ItemsServiceQueryItem (without_prefix id)) as [r|e]; [|done].
  destruct Hq as (item & path & Hitem & Hpath & Hkind).
  destruct (Items r) as [|item' items]; simplify_eq/=. rewrite Hpath. simpl.
  destruct (recgonizeStrmFileType path) as [kind opt]. simpl in Hkind. by subst kind.
Qed.

Lemma Emby_modify_sources_untouched sources : ∀ index jc,
  Forall (untouched without_prefix) sources →
  Emby.modify_sources index sources jc = Returns jc.
Proof.
  induction sources as [|ms rest IH]; intros index jc Hall; [done|].
  apply Forall_cons in Hall as [Hms Hrest]. simpl.
  rewrite Emby_modify_source_untouched by done. simpl. by apply IH.
Qed.

Lemma Jellyfin_modify_source_untouched index ms jc :
  untouched id ms → Jellyfin.modify_source index ms jc = Returns jc.
Proof.
  intros (i & Hid & Hq). unfold Jellyfin.modify_source. rewrite Hid. simpl in *.
  destruct (ItemsServiceQueryItem i) as [r|e]; [|done].
  destruct Hq as (item & path & Hitem & Hpath & Hkind).
  destruct (Items r) as [|item' items]; simplify_eq/=. rewrite Hpath. simpl.
  destruct (recgonizeStrmFileType path) as [kind opt]. simpl in Hkind. by subst kind.
Qed.

Lemma Jellyfin_modify_sources_untouched sources : ∀ index jc,
  Forall (untouched id) sources →
  Jellyfin.modify_sources index sources jc = Returns jc.
Proof.
  induction sources as [|ms rest IH]; intros index jc Hall; [done|].
  apply Forall_cons in Hall as [Hms Hrest]. simpl.
  rewrite Jellyfin_modify_source_untouched by done. simpl. by apply IH.
Qed.

(** A chain that was asked no edit gives back its document. *)
Lemma ship_untouched rw body :
  ship rw (NewJsonChainFromBytesWithCopy body) = Returns (Ok (rewritten rw body)).
Proof. reflexivity. Qed.

(** C8. When every media source of a PlaybackInfo is of no STRM kind (its
    item's path is classified [UnknownStrm], or its item cannot be queried),
    the body the Emby and the Jellyfin rewriter produce is the body received
    from upstream. *)
Theorem ModifyPlaybackInfo_unknown rw body resp :
  up_body rw = Ok body → Unmarshal body = Some resp →
  (Forall (untouched without_prefix) (MediaSources resp) →
     Emby.ModifyPlaybackInfo rw = Returns (Ok (rewritten rw body)))
  ∧ (Forall (untouched id) (MediaSources resp) →
       Jellyfin.ModifyPlaybackInfo rw = Returns (Ok (rewritten rw body)))
  ∧ r_body (rewritten rw body) = body.
Proof.
  intros Hbody Hdec. split; [|split; [|done]].
  - intros Hall. unfold Emby.ModifyPlaybackInfo. rewrite Hbody, Hdec.
    rewrite Emby_modify_sources_untouched by done. apply ship_untouched.
  - intros Hall. unfold Jellyfin.ModifyPlaybackInfo. rewrite Hbody, Hdec.
    rewrite Jellyfin_modify_sources_untouched by done. apply ship_untouched.
Qed.

(** *** [Items[0]] on an answer without items *)

Lemma Emby_modify_sources_panics sources : ∀ index jc ms i,
  ms ∈ sources → ID ms = Some i →
  ItemsServiceQueryItem (without_prefix i) = Ok (mkItems []) →
  ∃ why, Emby.modify_sources index sources jc = Panics why.
Proof.
  induction sources as [|ms0 rest IH]; intros index jc ms i Hin Hid Hq.
  - by apply elem_of_nil in Hin.
  - simpl. destruct (Emby.modify_source index ms0 jc) as [jc'|why] eqn:Hms0; simpl.
    + apply elem_of_cons in Hin as [->|Hin]; [|by eapply IH].
      unfold Emby.modify_source in Hms0. rewrite Hid in Hms0. simpl in Hms0.
      fold (without_prefix i) in Hms0. by rewrite Hq in Hms0.
    + by exists why.
Qed.

Lemma Jellyfin_modify_sources_panics sources : ∀ index jc ms i,
  ms ∈ sources → ID ms = Some i →
  ItemsServiceQueryItem i = Ok (mkItems []) →
  ∃ why, Jellyfin.modify_sources index sources jc = Panics why.
Proof.
  induction sources as [|ms0 rest IH]; intros index jc ms i Hin Hid Hq.
  - by apply elem_of_nil in Hin.
  - simpl. destruct (Jellyfin.modify_source index ms0 jc) as [jc'|why] eqn:Hms0; simpl.
    + apply elem_of_cons in Hin as [->|Hin]; [|by eapply IH].
      unfold Jellyfin.modify_source in Hms0. rewrite Hid in Hms0. simpl in Hms0.
      by rewrite Hq in Hms0.
    + by exists why.
Qed.

(** C10. The handlers read [Items[0]] of every answer of
    [ItemsServiceQueryItem] without looking at its length: when the media
    server answers the query for a media source with an empty [Items],
    [ModifyPlaybackInfo] and [VideosHandler], of Emby and of Jellyfin, do
    not return but panic (in [VideosHandler], on the index out of range
    itself). *)
Theorem Items_first_unchecked :
  (∀ rw body resp ms i,
     up_body rw = Ok body → Unmarshal body = Some resp →
     ms ∈ MediaSources resp → ID ms = Some i →
     ItemsServiceQueryItem (without_prefix i) = Ok (mkItems []) →
     ∃ why, Emby.ModifyPlaybackInfo rw = Panics why)
  ∧ (∀ rw body resp ms i,
       up_body rw = Ok body → Unmarshal body = Some resp →
       ms ∈ MediaSources resp → ID ms = Some i →
       ItemsServiceQueryItem i = Ok (mkItems []) →
       ∃ why, Jellyfin.ModifyPlaybackInfo rw = Panics why)
  ∧ (∀ req,
       Method req ≠ MethodHead →
       length (VideoRedirectReg_FindStringSubmatch (URL_Path req)) ≠ 2 →
       ItemsServiceQueryItem (without_prefix (mediasourceid req)) = Ok (mkItems []) →
       Emby.VideosHandler req = Panics "index out of range [0] with length 0")
  ∧ (∀ req,
       Method req ≠ MethodHead →
       ItemsServiceQueryItem (mediasourceid req) = Ok (mkItems []) →
       Jellyfin.VideosHandler req = Panics "index out of range [0] with length 0").
Proof.
  split; [|split; [|split]].
  - intros rw body resp ms i Hbody Hdec Hin Hid Hq.
    unfold Emby.ModifyPlaybackInfo. rewrite Hbody, Hdec.
    destruct (Emby_modify_sources_panics (MediaSources resp) 0
                (NewJsonChainFromBytesWithCopy body) ms i Hin Hid Hq) as [why ->].
    by exists why.
  - intros rw body resp ms i Hbody Hdec Hin Hid Hq.
    unfold Jellyfin.ModifyPlaybackInfo. rewrite Hbody, Hdec.
    destruct (Jellyfin_modify_sources_panics (MediaSources resp) 0
                (NewJsonChainFromBytesWithCopy body) ms i Hin Hid Hq) as [why ->].
    by exists why.
  - intros req Hm Hlen Hq. unfold Emby.VideosHandler.
    destruct (String.eqb_spec (Method req) MethodHead); [done|].
    destruct (Nat.eqb_spec (length (VideoRedirectReg_FindStringSubmatch (URL_Path req))) 2);
      [done|].
    unfold Emby.redirect_strm. fold (without_prefix (mediasourceid req)). by rewrite Hq.
  - intros req Hm Hq. unfold Jellyfin.VideosHandler.
    destruct (String.eqb_spec (Method req) MethodHead); [done|]. by rewrite Hq.
Qed.

(** *** The redirect of a path to canonicalize *)

(** C7, on the code.  When the pattern matches the path with one group,
    [VideosHandler] answers 302 with the whole match, not the group, between
    [/videos/] and [/stream]; the location is the canonical path of the
    captured id only if the whole match is that id. *)
Theorem VideosHandler_redirects_whole_match req whole captured :
  Method req ≠ MethodHead →
  VideoRedirectReg_FindStringSubmatch (URL_Path req) = [whole; captured] →
  Emby.VideosHandler req = Returns (Redirect 302 ("/videos/" +:+ whole +:+ "/stream"))
  ∧ (Emby.VideosHandler req = Returns (Redirect 302 ("/videos/" +:+ captured +:+ "/stream"))
     ↔ whole = captured).
Proof.
  intros Hm Hmatch.
  assert (Hrun : Emby.VideosHandler req
                 = Returns (Redirect 302 ("/videos/" +:+ whole +:+ "/stream"))).
  { unfold Emby.VideosHandler.
    destruct (String.eqb_spec (Method req) MethodHead); [done|]. by rewrite Hmatch. }
  split; [exact Hrun|]. rewrite Hrun. split.
  - intros [= Heq]. by apply append_cancel_l, append_cancel_r in Heq.
  - by intros ->.
Qed.

(** A match with no group, or with more than one, is never canonicalized:
    the handler goes on to query the item. *)
Lemma VideosHandler_other_matches req :
  Method req ≠ MethodHead →
  length (VideoRedirectReg_FindStringSubmatch (URL_Path req)) ≠ 2 →
  Emby.VideosHandler req = Emby.redirect_strm req.
Proof.
  intros Hm Hlen. unfold Emby.VideosHandler.
  destruct (String.eqb_spec (Method req) MethodHead); [done|].
  by destruct (Nat.eqb_spec (length (VideoRedirectReg_FindStringSubmatch (URL_Path req))) 2).
Qed.

(** *** Bodies that are not JSON *)

(** C1, on the code.  On a body the decoder rejects, the Emby and the
    Jellyfin rewriter return the decoder's error and forward nothing; the
    FNTV rewriter, on a body whose [code] is not a number, forwards the
    bytes it received and returns success. *)
Theorem rewriters_on_undecodable_body rw body :
  up_body rw = Ok body → Unmarshal body = None →
  (∃ e, Emby.ModifyPlaybackInfo rw = Returns (Err e))
  ∧ (∃ e, Jellyfin.ModifyPlaybackInfo rw = Returns (Err e))
  ∧ (∀ gjson_Get sjson recognize http alist now,
       Type_ (gjson_Get body "code") ≠ TNumber →
       FNTV.ModifyStream gjson_Get sjson recognize http alist now rw
         = Returns (Ok (mkRewritten (up_header rw) body))).
Proof.
  intros Hbody Hdec. split; [|split].
  - unfold Emby.ModifyPlaybackInfo. rewrite Hbody, Hdec. by eexists.
  - unfold Jellyfin.ModifyPlaybackInfo. rewrite Hbody, Hdec. by eexists.
  - intros gjson_Get sjson recognize http alist now Hty.
    unfold FNTV.ModifyStream. rewrite Hbody. unfold Get. simpl.
    by rewrite bool_decide_false.
Qed.

End Facts.
(** *** The handlers run on the example library *)

Lemma ModifyPlaybackInfo_unknown_witness :
  let rw := mkUpstream ∅ (Ok Examples.two_plain_sources) "ua" in
  Emby.ModifyPlaybackInfo rw = Returns (Ok (rewritten rw Examples.two_plain_sources))
  ∧ r_body (rewritten rw Examples.two_plain_sources) = Examples.two_plain_sources.
Proof.
  cbn zeta.
  destruct (ModifyPlaybackInfo_unknown (H:=Examples.deps) (mkUpstream ∅ (Ok Examples.two_plain_sources) "ua")
              Examples.two_plain_sources
              (mkPlayback [mkSource (Some "mediasource_43") (Some "43") (Some "/media/film.mkv")
                                    (Some "File") None (Some 123%Z);
                           mkSource (Some "99") None None None None None])
              eq_refl ltac:(vm_compute; reflexivity)) as (Hemby & _ & Hbody).
  split; [|exact Hbody]. apply Hemby.
  repeat constructor.
  - exists "mediasource_43". split; [reflexivity|]. vm_compute.
    eexists _, _. repeat split.
  - exists "99". split; [reflexivity|]. vm_compute. exact I.
Defined.

Lemma Items_first_unchecked_witness :
  (∃ why, Emby.ModifyPlaybackInfo (mkUpstream ∅ (Ok Examples.source_without_item) "ua") = Panics why)
  ∧ (∃ why, Jellyfin.ModifyPlaybackInfo (mkUpstream ∅ (Ok Examples.source_without_item) "ua")
            = Panics why)
  ∧ Emby.VideosHandler (mkVideoRequest "GET" "/videos/7/stream" "mediasource_7" "ua")
    = Panics "index out of range [0] with length 0"
  ∧ Jellyfin.VideosHandler (mkVideoRequest "GET" "/videos/7/stream" "7" "ua")
    = Panics "index out of range [0] with length 0".
Proof.
  destruct (Items_first_unchecked (H:=Examples.deps)) as (Hep & Hjp & Hev & Hjv).
  assert (Hin : mkSource (Some "7") (Some "7") None None None None
                ∈ [mkSource (Some "43") (Some "43") None None None None;
                   mkSource (Some "7") (Some "7") None None None None])
    by (apply list_elem_of_further, list_elem_of_here).
  split; [|split; [|split]].
  - eapply (Hep _ Examples.source_without_item _ _ "7");
      [reflexivity|vm_compute; reflexivity|exact Hin|reflexivity|vm_compute; reflexivity].
  - eapply (Hjp _ Examples.source_without_item _ _ "7");
      [reflexivity|vm_compute; reflexivity|exact Hin|reflexivity|vm_compute; reflexivity].
  - apply Hev; [discriminate|vm_compute; lia|vm_compute; reflexivity].
  - apply Hjv; [discriminate|vm_compute; reflexivity].
Defined.

Lemma VideosHandler_redirects_whole_match_witness :
  let req := mkVideoRequest "GET" "/videos/42/original.mkv" "42" "ua" in
  Emby.VideosHandler req = Returns (Redirect 302 "/videos//videos/42/original.mkv/stream")
  ∧ Emby.VideosHandler req ≠ Returns (Redirect 302 "/videos/42/stream").
Proof.
  cbn zeta.
  destruct (VideosHandler_redirects_whole_match (H:=Examples.deps)
              (mkVideoRequest "GET" "/videos/42/original.mkv" "42" "ua")
              "/videos/42/original.mkv" "42") as [Hrun Hiff].
  - discriminate.
  - vm_compute. reflexivity.
  - split; [exact Hrun|]. intros Heq. apply Hiff in Heq. discriminate.
Defined.

Lemma rewriters_on_undecodable_body_witness :
  let rw := mkUpstream ∅ (Ok "<html>401 Unauthorized</html>") "ua" in
  (∃ e, Emby.ModifyPlaybackInfo rw = Returns (Err e))
  ∧ (∃ e, Jellyfin.ModifyPlaybackInfo rw = Returns (Err e))
  ∧ FNTV.ModifyStream Examples.get_path Examples.no_sjson Examples.by_directory
      (λ content _, content) StrmExamples.resolve StrmExamples.an_hour_before rw
    = Returns (Ok (mkRewritten ∅ "<html>401 Unauthorized</html>")).
Proof.
  cbn zeta.
  destruct (rewriters_on_undecodable_body (H:=Examples.deps)
              (mkUpstream ∅ (Ok "<html>401 Unauthorized</html>") "ua")
              "<html>401 Unauthorized</html>" eq_refl ltac:(vm_compute; reflexivity))
    as (He & Hj & Hf).
  split; [exact He|]. split; [exact Hj|].
  apply Hf. vm_compute. discriminate.
Defined.

End MediaServerFacts.

(** ** [IsURLEncoded] and the escaping of query texts *)

Module UtilsFacts.
Import GoString GoStringFacts URL Utils.

Lemma hex_round_trip c :
  ishex (upperhex (N_of_ascii c / 16)) && ishex (upperhex (N_of_ascii c mod 16)) = true
  ∧ ascii_of_N (unhex (upperhex (N_of_ascii c / 16)) * 16
                + unhex (upperhex (N_of_ascii c mod 16))) = c.
Proof. destruct c as [[] [] [] [] [] [] [] []]; vm_compute; done. Qed.

Lemma shouldEscape_false c :
  shouldEscape c = false → Ascii.eqb c "%" = false ∧ Ascii.eqb c "+" = false ∧ Ascii.eqb c " " = false.
Proof. destruct c as [[] [] [] [] [] [] [] []]; vm_compute; done. Qed.

Lemma shouldEscape_space : shouldEscape " " = true.
Proof. done. Qed.

(** Unescaping undoes escaping. *)
Lemma QueryUnescape_QueryEscape s : QueryUnescape (QueryEscape s) = Some s.
Proof.
  induction s as [|c s IH]; [done|]. simpl.
  destruct (Ascii.eqb_spec c " ") as [->|Hsp].
  - simpl. by rewrite IH.
  - destruct (shouldEscape c) eqn:Hc.
    + destruct (hex_round_trip c) as [Hhex Hval].
      cbn [QueryUnescape]. change (Ascii.eqb "%" "%") with true. cbn match.
      rewrite Hhex, IH. simpl. by rewrite Hval.
    + destruct (shouldEscape_false c Hc) as (H1 & H2 & _).
      cbn [QueryUnescape]. rewrite H1, H2, IH. done.
Qed.

Lemma IsURLEncoded_image u : IsURLEncoded u = true → ∃ s, u = QueryEscape s.
Proof.
  unfold IsURLEncoded. destruct (QueryUnescape u) as [s|]; [|done].
  intros Heq. apply String.eqb_eq in Heq. by exists s.
Qed.

(** [IsURLEncoded] accepts exactly the texts [url.QueryEscape] writes: the
    escaped form of any text is accepted, and an accepted text is the
    escaped form of some text. *)
Theorem IsURLEncoded_iff u : IsURLEncoded u = true ↔ ∃ s, u = QueryEscape s.
Proof.
  split; [apply IsURLEncoded_image|].
  intros [s ->]. unfold IsURLEncoded.
  rewrite QueryUnescape_QueryEscape. apply String.eqb_refl.
Qed.

Lemma QueryEscape_bytes c s :
  contains_byte c (QueryEscape s) = true →
  shouldEscape c = false ∨ c = "%"%char ∨ c = "+"%char.
Proof.
  induction s as [|a s IH]; [done|]. cbn [QueryEscape].
  destruct (Ascii.eqb a " ").
  - cbn [contains_byte]. destruct (Ascii.eqb_spec "+"%char c) as [<-|_]; [auto|apply IH].
  - destruct (shouldEscape a) eqn:Ha.
    + cbn [contains_byte].
      destruct (Ascii.eqb_spec "%"%char c) as [<-|_]; [auto|].
      destruct (Ascii.eqb_spec (upperhex (N_of_ascii a / 16)) c) as [<-|_].
      { intros _. left. clear. destruct a as [[] [] [] [] [] [] [] []]; vm_compute; done. }
      destruct (Ascii.eqb_spec (upperhex (N_of_ascii a mod 16)) c) as [<-|_].
      { intros _. left. clear. destruct a as [[] [] [] [] [] [] [] []]; vm_compute; done. }
      apply IH.
    + cbn [contains_byte]. destruct (Ascii.eqb_spec a c) as [<-|_]; [auto|apply IH].
Qed.

(** A text that holds a byte [url.QueryEscape] would escape, other than the
    [%] and [+] it writes itself, is not accepted: a URL with its [:] and
    [/], or a text with a space, is reported as not encoded. *)
Theorem IsURLEncoded_reserved u c :
  contains_byte c u = true → shouldEscape c = true → c ≠ "%"%char → c ≠ "+"%char →
  IsURLEncoded u = false.
Proof.
  intros Hin Hc H1 H2. destruct (IsURLEncoded u) eqn:Hu; [|done].
  apply IsURLEncoded_image in Hu as [s ->].
  apply QueryEscape_bytes in Hin as [Hf|[->| ->]]; congruence.
Qed.

Lemma IsURLEncoded_reserved_witness :
  IsURLEncoded "http://origin.example/a b.mp4" = false.
Proof.
  apply (IsURLEncoded_reserved _ "/"%char); [reflexivity|reflexivity|discriminate|discriminate].
Defined.

End UtilsFacts.

(** ** The cache key of a single parameter *)

Module CacheKeyShape.
Import GoString GoStringFacts URL CacheKey CacheKeyFacts Utils.

Lemma append_assoc a b c : (a +:+ b) +:+ c = a +:+ b +:+ c.
Proof. induction a as [|x a IH]; [done|]. by rewrite !append_String, IH. Qed.

Lemma contains_byte_app c a b :
  contains_byte c (a +:+ b) = contains_byte c a || contains_byte c b.
Proof.
  induction a as [|x a IH]; [done|]. rewrite append_String. cbn [contains_byte].
  by destruct (Ascii.eqb x c).
Qed.

Lemma unreserved_contains c s :
  unreserved s = true → shouldEscape c = true → contains_byte c s = false.
Proof.
  intros Hs Hc. induction s as [|a s IH]; [done|].
  cbn in Hs. apply andb_prop in Hs as [Ha Hs]. cbn [contains_byte].
  destruct (Ascii.eqb_spec a c) as [->|_]; [by rewrite Hc in Ha|by apply IH].
Qed.

Lemma QueryUnescape_unreserved s : unreserved s = true → QueryUnescape s = Some s.
Proof.
  induction s as [|a s IH]; [done|]. intros Hs.
  cbn in Hs. apply andb_prop in Hs as [Ha Hs]. apply negb_true_iff in Ha.
  destruct (UtilsFacts.shouldEscape_false a Ha) as (H1 & H2 & _).
  cbn [QueryUnescape]. by rewrite H1, H2, IH.
Qed.

Lemma QueryEscape_unreserved s : unreserved s = true → QueryEscape s = s.
Proof.
  induction s as [|a s IH]; [done|]. intros Hs.
  cbn in Hs. apply andb_prop in Hs as [Ha Hs]. apply negb_true_iff in Ha.
  destruct (UtilsFacts.shouldEscape_false a Ha) as (_ & _ & H3).
  cbn [QueryEscape]. by rewrite H3, Ha, IH.
Qed.

Lemma Cut_found c k v : contains_byte c k = false → Cut c (k +:+ String c v) = (k, v, true).
Proof.
  induction k as [|a k IH]; intros Hk.
  - rewrite append_empty_l. cbn [Cut]. by rewrite Ascii.eqb_refl.
  - rewrite append_String. cbn [Cut contains_byte] in *.
    destruct (Ascii.eqb a c); [done|]. by rewrite IH.
Qed.

Lemma params_single k v :
  unreserved k = true → unreserved v = true → params (k +:+ "=" +:+ v) = [(k, v)].
Proof.
  intros Hk Hv. unfold params, pieces.
  rewrite pieces_aux_single; last first.
  { change ("=" +:+ v) with (String "=" v). rewrite contains_byte_app. cbn [contains_byte].
    change (Ascii.eqb "=" "&") with false. cbn match.
    by rewrite !unreserved_contains. }
  rewrite append_empty_l.
  destruct (k +:+ "=" +:+ v) as [|a s] eqn:Heq.
  { apply (f_equal String.length) in Heq. rewrite append_length in Heq. simpl in Heq. lia. }
  rewrite <-Heq. cbn [omap list_omap]. unfold parse_piece.
  change ("=" +:+ v) with (String "=" v).
  rewrite contains_byte_app. cbn [contains_byte]. change (Ascii.eqb "=" ";") with false.
  cbn match. rewrite !unreserved_contains by done. cbn [orb].
  change (String "=" v) with ("=" +:+ v). rewrite Heq. cbn [String.eqb]. rewrite <-Heq.
  change ("=" +:+ v) with (String "=" v).
  rewrite Cut_found by (by apply unreserved_contains).
  by rewrite !QueryUnescape_unreserved.
Qed.

Lemma sort_Strings_singleton x : sort_Strings [x] = [x].
Proof.
  pose proof (sort_Strings_Permutation [x]) as Hp.
  by apply Permutation_singleton_r in Hp.
Qed.

Lemma key_map_single k v : kept (k, v) = true → key_map [(k, v)] = {[ k := [v] ]}.
Proof.
  intros Hk. apply map_eq. intros k'. rewrite lookup_key_map, values_of_cons. cbn [fst snd].
  destruct (decide (k = k')) as [<-|Hne].
  - unfold kept in Hk. cbn [fst] in Hk. apply negb_true_iff in Hk. rewrite Hk.
    by rewrite lookup_singleton_eq.
  - rewrite lookup_singleton_ne by done. by destruct (existsb _ _).
Qed.

Lemma Encode_single k v : Encode {[ k := [v] ]} = QueryEscape k +:+ "=" +:+ QueryEscape v.
Proof.
  unfold Encode. rewrite map_to_list_singleton. cbn [fmap list_fmap fst].
  rewrite sort_Strings_singleton. cbn [foldl]. rewrite lookup_singleton_eq. done.
Qed.

Lemma kept_iff k v : kept (k, v) = true ↔ k ∉ CacheKeyIgnoreQuery.
Proof.
  unfold kept. cbn [fst]. rewrite negb_true_iff, <-not_true_iff_false, existsb_exists.
  split.
  - intros Hn Hin. apply Hn. exists k. split; [by apply list_elem_of_In|apply String.eqb_refl].
  - intros Hn (x & Hin & Heq). apply String.eqb_eq in Heq as ->. by apply Hn, list_elem_of_In.
Qed.

(** The key is the path with the encoded query written straight after it,
    nothing between them: a parameter [k=v] of plain bytes whose name is
    not ignored gives the key [path k=v], and so does the request for the
    path [path k] with the query [=v]. *)
Theorem getCacheKey_no_separator path k v :
  unreserved k = true → unreserved v = true → k ∉ CacheKeyIgnoreQuery →
  getCacheKey path (k +:+ "=" +:+ v) = path +:+ k +:+ "=" +:+ v
  ∧ getCacheKey (path +:+ k) ("=" +:+ v) = path +:+ k +:+ "=" +:+ v.
Proof.
  intros Hk Hv Hkept.
  assert (Hone : ∀ p k', unreserved k' = true → k' ∉ CacheKeyIgnoreQuery →
            getCacheKey p (k' +:+ "=" +:+ v) = p +:+ k' +:+ "=" +:+ v).
  { intros p k' Hk' Hkept'. rewrite getCacheKey_key_map, params_single by done.
    rewrite key_map_single by (by apply kept_iff).
    by rewrite Encode_single, !QueryEscape_unreserved. }
  split; [by apply Hone|].
  change ("=" +:+ v) with ("" +:+ "=" +:+ v) at 1.
  rewrite (Hone (path +:+ k) "") by (done || by apply (kept_iff "" "")).
  rewrite append_empty_l. apply append_assoc.
Qed.

Lemma getCacheKey_no_separator_witness :
  getCacheKey "/Items/5/Images" "a=1" = "/Items/5/Imagesa=1"
  ∧ getCacheKey "/Items/5/Imagesa" "=1" = "/Items/5/Imagesa=1".
Proof.
  apply (getCacheKey_no_separator "/Items/5/Images" "a" "1"); [reflexivity|reflexivity|].
  by apply (kept_iff "a" "").
Defined.

End CacheKeyShape.

(** ** The cache middleware: what the client sees, and the replay *)

Module MiddlewareReplay.
Import GoString GoStringFacts Go HTTP Cache Middleware Written.

Lemma foldl_act_warp_inner l : ∀ w, inner (foldl act_warp w l) = foldl act (inner w) l.
Proof.
  induction l as [|a l IH]; intros w; [done|].
  cbn [foldl]. rewrite IH. by destruct a.
Qed.

Lemma foldl_act_warp_Body l : ∀ w, Body (foldl act_warp w l) = Body w +:+ written l.
Proof.
  induction l as [|a l IH]; intros w; cbn [foldl written].
  - by rewrite append_empty_r.
  - rewrite IH. destruct a; cbn [act_warp Body]; try done.
    apply CacheKeyShape.append_assoc.
Qed.

Lemma foldl_act_Out l : ∀ w, Out (foldl act w l) = Out w +:+ written l.
Proof.
  induction l as [|a l IH]; intros w; cbn [foldl written].
  - by rewrite append_empty_r.
  - rewrite IH. destruct a; cbn [act Out]; try done.
    apply CacheKeyShape.append_assoc.
Qed.

Lemma foldl_keep_header h keys : ∀ (m : gmap string string) k,
  foldl (keep_header h) m keys !! k =
    if decide (k ∈ keys ∧ Header_Get h k ≠ "") then Some (Header_Get h k) else m !! k.
Proof.
  induction keys as [|key keys IH]; intros m k; cbn [foldl].
  - rewrite decide_False; [done|]. intros [Hin _]. by apply elem_of_nil in Hin.
  - rewrite IH. unfold keep_header.
    destruct (decide (k ∈ keys ∧ Header_Get h k ≠ "")) as [[Hin Hne]|Hn].
    + rewrite decide_True; [done|]. split; [by apply list_elem_of_further|done].
    + destruct (String.eqb_spec (Header_Get h key) "") as [Heq|Hne].
      * destruct (decide (k ∈ key :: keys ∧ Header_Get h k ≠ "")) as [[Hin Hk]|_]; [|done].
        apply elem_of_cons in Hin as [->|Hin]; [done|]. by destruct Hn.
      * destruct (decide (key = k)) as [->|Hk].
        -- rewrite lookup_insert_eq, decide_True; [done|].
           split; [apply list_elem_of_here|done].
        -- rewrite lookup_insert_ne by done.
           rewrite decide_False; [done|]. intros [Hin Hne'].
           apply elem_of_cons in Hin as [->|Hin]; [done|]. by apply Hn.
Qed.

Lemma whitelist_cases (P : string → Prop) :
  P "Content-Type" → P "Content-Length" → P "Cache-Control" → P "ETag" →
  P "Content-Disposition" → ∀ k, k ∈ whitelist → P k.
Proof.
  intros H1 H2 H3 H4 H5 k Hin. unfold whitelist in Hin.
  repeat (apply elem_of_cons in Hin as [->|Hin]; [done|]).
  by apply elem_of_nil in Hin.
Qed.

(** The names of the whitelist stay apart once canonical. *)
Lemma whitelist_canonical_inj k1 k2 :
  k1 ∈ whitelist → k2 ∈ whitelist →
  CanonicalMIMEHeaderKey k1 = CanonicalMIMEHeaderKey k2 → k1 = k2.
Proof.
  intros H1 H2. revert k1 H1 k2 H2.
  apply (whitelist_cases (λ k1, ∀ k2, k2 ∈ whitelist →
           CanonicalMIMEHeaderKey k1 = CanonicalMIMEHeaderKey k2 → k1 = k2));
    apply (whitelist_cases (λ k2, CanonicalMIMEHeaderKey _ = CanonicalMIMEHeaderKey k2 → _ = k2));
    vm_compute; congruence.
Qed.

(** Writing the headers of an entry with whitelisted names sets each of
    them to its one value and touches nothing else. *)
Lemma set_headers (m : gmap string string) (w : ResponseWriter) :
  (∀ k v, m !! k = Some v → k ∈ whitelist) →
  let w' := map_fold (λ key value w, act w (SetHeader key value)) w m in
  Status w' = Status w ∧ Out w' = Out w
  ∧ (∀ key, key ∈ whitelist →
       Headers w' !! CanonicalMIMEHeaderKey key =
         match m !! key with
         | Some v => Some [v]
         | None => Headers w !! CanonicalMIMEHeaderKey key
         end)
  ∧ (∀ k, (∀ key, key ∈ whitelist → CanonicalMIMEHeaderKey key ≠ k) →
          Headers w' !! k = Headers w !! k).
Proof.
  cbn zeta.
  apply (map_fold_weak_ind
    (λ (w' : ResponseWriter) (m : gmap string string),
       (∀ k v, m !! k = Some v → k ∈ whitelist) →
       Status w' = Status w ∧ Out w' = Out w
       ∧ (∀ key, key ∈ whitelist →
            Headers w' !! CanonicalMIMEHeaderKey key =
              match m !! key with
              | Some v => Some [v]
              | None => Headers w !! CanonicalMIMEHeaderKey key
              end)
       ∧ (∀ k, (∀ key, key ∈ whitelist → CanonicalMIMEHeaderKey key ≠ k) →
               Headers w' !! k = Headers w !! k))).
  - intros _. split; [done|]. split; [done|]. split; [|done].
    intros key _. by rewrite lookup_empty.
  - intros i x m' r Hi IH Hin.
    assert (Hiw : i ∈ whitelist) by (apply (Hin i x), lookup_insert_eq).
    destruct IH as (HS & HO & HH & HN).
    { intros k v Hk. apply (Hin k v). rewrite lookup_insert_ne; [done|]. congruence. }
    split; [done|]. split; [done|]. cbn [act Headers]. unfold Header_Set. split.
    + intros key Hkey. destruct (decide (i = key)) as [->|Hne].
      * by rewrite !lookup_insert_eq.
      * rewrite !lookup_insert_ne; [by apply HH|done|].
        intros Heq. by apply whitelist_canonical_inj in Heq.
    + intros k Hk. rewrite lookup_insert_ne by (by apply Hk). by apply HN.
Qed.

(** What the replay of a recorded response puts on a writer: the recorded
    status and body, and of the recorded headers the whitelisted ones that
    were not empty, each with its first value; every other header of the
    writer stays as it was, and none is taken from the recording. *)
Theorem WriteResponse_entry (w : WriterWarp) (out : ResponseWriter) :
  let r := WriteResponse (entry_of w) out in
  Status r = Status (inner w)
  ∧ Out r = Out out +:+ Body w
  ∧ (∀ key, key ∈ whitelist →
       Header_Get (Headers r) key =
         if String.eqb (Header_Get (Headers (inner w)) key) ""
         then Header_Get (Headers out) key
         else Header_Get (Headers (inner w)) key)
  ∧ (∀ k, (∀ key, key ∈ whitelist → CanonicalMIMEHeaderKey key ≠ k) →
          Headers r !! k = Headers out !! k).
Proof.
  cbn zeta. unfold WriteResponse.
  set (w0 := act out (WriteHeader (StatusCode (entry_of w)))).
  destruct (set_headers (CHeader (entry_of w)) w0) as (HS & HO & HH & HN).
  { intros k v Hk. unfold entry_of in Hk. cbn [CHeader] in Hk.
    rewrite foldl_keep_header in Hk. case_decide as Hd; [|by rewrite lookup_empty in Hk].
    apply Hd. }
  set (w1 := map_fold _ w0 _) in *.
  cbn [act Status Out Headers]. split; [by rewrite HS|]. split; [by rewrite HO|]. split.
  - intros key Hkey. unfold Header_Get at 1. rewrite (HH key Hkey).
    unfold entry_of. cbn [CHeader]. rewrite foldl_keep_header.
    destruct (String.eqb_spec (Header_Get (Headers (inner w)) key) "") as [Heq|Hne].
    + rewrite decide_False by (by intros [_ ?]). by rewrite lookup_empty.
    + by rewrite decide_True.
  - intros k Hk. by rewrite (HN k Hk).
Qed.

Section WithCache.
Context {C : Type} `{!BigCache C}.
Variable Json : CacheData → string.
Variable ParseCacheData : string → option CacheData.

(** Unless it answers from the cache, the middleware is not seen by the
    client: the writer ends as the rest of the chain leaves it, the chain is
    not cut short, and a recording holds exactly the bytes that were sent. *)
Theorem ImageCache_transparent reg next ctx (p : Pool C) :
  let key := CacheKey.getCacheKey (Path (request ctx)) (RawQuery (request ctx)) in
  let served := (ImageCache Json ParseCacheData reg next ctx p).1 in
  Method (request ctx) ≠ "GET" ∨ reg (Path (request ctx)) = false
    ∨ cache_Get (pool p) key ≫= ParseCacheData = None →
  response served = foldl act (Writer ctx) (next (request ctx))
  ∧ aborted served = false
  ∧ ∀ w, captured served = Some w →
         Body w = written (next (request ctx))
         ∧ Out (response served) = Out (Writer ctx) +:+ Body w.
Proof.
  cbn zeta. intros Hcase. unfold ImageCache, MethodGet.
  destruct (String.eqb_spec (Method (request ctx)) "GET") as [HG|HG]; cbn [negb orb].
  2:{ cbn. split; [done|]. split; [done|]. by intros w [=]. }
  destruct (reg (Path (request ctx))) eqn:Hreg; cbn [negb].
  2:{ cbn. split; [done|]. split; [done|]. by intros w [=]. }
  destruct Hcase as [?|[[=]|Hmiss]]; [done|].
  assert (Hrec : ∀ q,
    let s := (record_response Json
                (CacheKey.getCacheKey (Path (request ctx)) (RawQuery (request ctx)))
                next ctx q).1 in
    response s = foldl act (Writer ctx) (next (request ctx)) ∧ aborted s = false
    ∧ ∀ w, captured s = Some w →
           Body w = written (next (request ctx))
           ∧ Out (response s) = Out (Writer ctx) +:+ Body w).
  { intros [c l]. rewrite MiddlewareFacts.record_response_run. cbn zeta. cbn [fst response aborted captured].
    unfold recording. rewrite foldl_act_warp_inner. cbn [inner].
    split; [done|]. split; [done|]. intros w [= <-].
    rewrite foldl_act_warp_Body, foldl_act_Out. cbn [Body].
    by rewrite CacheKeyFacts.append_empty_l. }
  unfold getCacheBaseFunc, mbind, State_bind, Get. cbn [fst snd].
  destruct (cache_Get (pool p) _) as [d|] eqn:Hget; cbn [mbind option_bind] in Hmiss.
  - destruct (ParseCacheData d) eqn:Hparse; [done|]. apply Hrec.
  - apply Hrec.
Qed.

Lemma ImageCache_GET reg next ctx :
  Method (request ctx) = "GET" → reg (Path (request ctx)) = true →
  ImageCache Json ParseCacheData reg next ctx = getCacheBaseFunc Json ParseCacheData next ctx.
Proof. intros HG Hreg. unfold ImageCache. by rewrite HG, Hreg. Qed.

Lemma getCacheBaseFunc_miss next ctx c l :
  cache_Get c (CacheKey.getCacheKey (Path (request ctx)) (RawQuery (request ctx)))
    ≫= ParseCacheData = None →
  getCacheBaseFunc Json ParseCacheData next ctx (mkPool c l) =
    record_response Json (CacheKey.getCacheKey (Path (request ctx)) (RawQuery (request ctx)))
      next ctx
      (mkPool c (l ++ [OpGet (CacheKey.getCacheKey (Path (request ctx)) (RawQuery (request ctx)))])).
Proof.
  intros Hmiss. unfold getCacheBaseFunc, mbind, State_bind, Get. cbn [pool ops].
  destruct (cache_Get c _) as [d|]; [|done].
  cbn [mbind option_bind] in Hmiss. by rewrite Hmiss.
Qed.

Lemma getCacheBaseFunc_hit next ctx c l key d entry :
  CacheKey.getCacheKey (Path (request ctx)) (RawQuery (request ctx)) = key →
  cache_Get c key = Some d → ParseCacheData d = Some entry →
  getCacheBaseFunc Json ParseCacheData next ctx (mkPool c l) =
    (mkServed (WriteResponse entry (Writer ctx)) true None, mkPool c (l ++ [OpGet key])).
Proof.
  intros <- Hget Hparse. unfold getCacheBaseFunc, mbind, State_bind, Get. cbn [pool ops].
  by rewrite Hget, Hparse.
Qed.

(** A response the middleware has stored is replayed to the next [GET]
    with the same key: the entry is written to the client's writer, the
    chain is cut short, the rest of the chain is not run, and the cache is
    only read. *)
Theorem ImageCache_replays reg next next' ctx ctx' (p : Pool C) :
  let key := CacheKey.getCacheKey (Path (request ctx)) (RawQuery (request ctx)) in
  let entry := entry_of (recording next ctx) in
  let first := ImageCache Json ParseCacheData reg next ctx p in
  Method (request ctx) = "GET" → reg (Path (request ctx)) = true →
  Method (request ctx') = "GET" → reg (Path (request ctx')) = true →
  CacheKey.getCacheKey (Path (request ctx')) (RawQuery (request ctx')) = key →
  cache_Get (pool p) key ≫= ParseCacheData = None →
  cacheable (recording next ctx) →
  ParseCacheData (Json entry) = Some entry →
  cache_Get (cache_Set (pool p) key (Json entry)).1 key = Some (Json entry) →
  ImageCache Json ParseCacheData reg next' ctx' first.2 =
    (mkServed (WriteResponse entry (Writer ctx')) true None,
     mkPool (pool first.2) (ops first.2 ++ [OpGet key])).
Proof.
  cbn zeta. intros HG Hreg HG' Hreg' Hkey Hmiss Hc Hparse Hlaw.
  rewrite (ImageCache_GET reg next ctx HG Hreg), (ImageCache_GET reg next' ctx' HG' Hreg').
  destruct p as [c l]. cbn [pool] in *.
  rewrite (getCacheBaseFunc_miss next ctx c l Hmiss), MiddlewareFacts.record_response_run.
  cbn zeta. rewrite decide_True by done. cbn [snd pool ops].
  by rewrite (getCacheBaseFunc_hit next' ctx' _ _ _ _ _ Hkey Hlaw Hparse).
Qed.

End WithCache.

(** The poster is stored with its cookie left out; a second request, with
    another tag and another api key, is answered from the cache. *)
Lemma ImageCache_replays_witness :
  let first := ImageCache CacheJSON.Json CacheJSON.ParseCacheData CacheJSON.images
                 CacheJSON.poster (CacheJSON.get_poster "abc") CacheJSON.empty_pool in
  let second := ImageCache CacheJSON.Json CacheJSON.ParseCacheData CacheJSON.images
                  (λ _, [Write "never run"])
                  (mkContext (mkRequest "GET" "/emby/Items/54/Images/Primary" "api_key=other&tag=xyz")
                             (mkWriter 200 ∅ ""))
                  first.2 in
  aborted second.1 = true ∧ Out (response second.1) = "JPEG-DATA".
Proof.
  cbn zeta.
  rewrite (ImageCache_replays CacheJSON.Json CacheJSON.ParseCacheData CacheJSON.images
             CacheJSON.poster (λ _, [Write "never run"]) (CacheJSON.get_poster "abc")
             (mkContext (mkRequest "GET" "/emby/Items/54/Images/Primary" "api_key=other&tag=xyz")
                        (mkWriter 200 ∅ ""))
             CacheJSON.empty_pool);
    [split; vm_compute; reflexivity|reflexivity|reflexivity|reflexivity|reflexivity
    |vm_compute; reflexivity|reflexivity| |vm_compute; reflexivity|vm_compute; reflexivity].
  split; [simpl; lia|vm_compute; discriminate].
Defined.

Lemma ImageCache_transparent_witness :
  response (ImageCache CacheJSON.Json CacheJSON.ParseCacheData CacheJSON.images
              CacheJSON.poster (CacheJSON.get_poster "abc") CacheJSON.empty_pool).1
  = foldl act (mkWriter 200 ∅ "") (CacheJSON.poster (request (CacheJSON.get_poster "abc"))).
Proof.
  apply (ImageCache_transparent CacheJSON.Json CacheJSON.ParseCacheData CacheJSON.images
           CacheJSON.poster (CacheJSON.get_poster "abc") CacheJSON.empty_pool).
  right. right. reflexivity.
Defined.

End MiddlewareReplay.
